(** * The mita visualisation: morph/render engine

    A shallow embedding of the rendering-relevant TypeScript sources
    (dataUtils, MorphRenderer, the render effect of UnifiedViz) and the
    properties stated about them.

    JavaScript numbers are modelled as rationals [Q]: the arithmetic of the
    sources is read over exact numbers, [null] as [None], and the IEEE
    values [Infinity]/[-Infinity] that [getBBox] starts from as an explicit
    extension of [Q].  Equality of numbers is [Qeq] ([==]). *)

From stdpp Require Import base gmap sets.
From Stdlib Require Import QArith Qabs Lqa ZArith List Bool Lia String.
From Stdlib Require Import Ascii DecimalString.
Import ListNotations.

Local Open Scope string_scope.
Local Open Scope list_scope.
Local Open Scope Q_scope.

(** ** JavaScript [Math] on exact numbers *)

Module Math.

Definition ltb (x y : Q) : bool := negb (Qle_bool y x).
Definition leb (x y : Q) : bool := Qle_bool x y.
Definition geb (x y : Q) : bool := Qle_bool y x.

Definition min (a b : Q) : Q := if Qle_bool a b then a else b.
Definition max (a b : Q) : Q := if Qle_bool a b then b else a.
Definition abs (a : Q) : Q := Qabs a.

(** [Math.max(lo, Math.min(hi, x))], the clamping idiom of the renderers. *)
Definition clampTo (lo hi x : Q) : Q := max lo (min hi x).

End Math.

(** ** d3 linear scales

    The renderers receive [d3.ScaleLinear<number, number>] values and use
    them in two ways only: applied to a number, and through [.range()].
    A scale is its domain, its range and its clamp flag; application is
    d3's [normalize] of the (possibly clamped) input followed by
    [interpolateNumber] over the range.  A degenerate domain normalises to
    the constant [0.5], as d3 does. *)

Record ScaleLinear : Type := mkScale {
  sc_domain : Q * Q;
  sc_range : Q * Q;
  sc_clamp : bool
}.

Definition scale_normalize (d0 d1 x : Q) : Q :=
  if Qeq_bool d1 d0 then 1 # 2 else (x - d0) / (d1 - d0).

Definition scale_apply (s : ScaleLinear) (x : Q) : Q :=
  let '(d0, d1) := sc_domain s in
  let '(r0, r1) := sc_range s in
  let x' := if sc_clamp s
            then Math.clampTo (Math.min d0 d1) (Math.max d0 d1) x
            else x in
  let u := scale_normalize d0 d1 x' in
  r0 * (1 - u) + r1 * u.

(** Modelled from the spec: [createXScale] of scaleUtils, whose source is
    not part of the sources at hand (its tests and its caller are).  "Linear,
    fixed domain [-50, 50] mapped to [0, innerWidth], clamped at evaluation
    time." *)
Definition createXScale (innerWidth : Q) : ScaleLinear :=
  mkScale (-(50), 50) (0, innerWidth) true.

Definition distanceScale (innerWidth x : Q) : Q :=
  scale_apply (createXScale innerWidth) x.

(** ** Data model (types of the viz module) *)

Inductive OutcomeType : Type := Stunting | Consumption | Roads.

Definition OutcomeType_eqb (a b : OutcomeType) : bool :=
  match a, b with
  | Stunting, Stunting | Consumption, Consumption | Roads, Roads => true
  | _, _ => false
  end.

(** A vertex is a [[lat, lon]] pair. *)
Definition Vertex : Type := (Q * Q)%type.

(** One entry of districtPolygons.json. *)
Record DistrictPolygon : Type := mkDistrictPolygon {
  dp_ubigeo : Z;
  dp_mita : Z;
  dp_polygon : list Vertex
}.

(** One entry of mitaData.json; every field read through [?? null] (or
    [??] with a default) by [mergeData] may be absent. *)
Record DistrictData : Type := mkDistrictData {
  dd_ubigeo : Z;
  dd_distance : option Q;
  dd_isInside : option bool;
  dd_consumption : option Q;
  dd_stunting : option Q;
  dd_roads : option Q
}.

Record MergedDistrictData : Type := mkMerged {
  ubigeo : Z;
  mita : Z;
  polygon : list Vertex;
  centroidLon : Q;
  centroidLat : Q;
  distance : option Q;
  isInside : bool;
  consumption : option Q;
  stunting : option Q;
  roads : option Q
}.

(** A scatter point is the merged record it was spread from ([...d]) and
    the derived coordinates. *)
Record ScatterDataPoint : Type := mkScatter {
  base : MergedDistrictData;
  scatterX : Q;
  scatterY : Q;
  stuntingY : option Q;
  consumptionY : option Q;
  roadsY : option Q
}.

(** [x as number] where [x] may be [null]: arithmetic reads [null] as 0. *)
Definition asNumber (x : option Q) : Q :=
  match x with Some v => v | None => 0 end.

(** [d[currentOutcome]] *)
Definition outcomeValue (o : OutcomeType) (d : MergedDistrictData) : option Q :=
  match o with
  | Stunting => stunting d
  | Consumption => consumption d
  | Roads => roads d
  end.

(** ** dataUtils *)

Section MergeData.

(** [d3.polygonCentroid], applied to the ring with its pairs swapped. *)
Variable polygonCentroid : list (Q * Q) -> Q * Q.

Definition outcomeMapOf (mitaData : list DistrictData) : gmap Z DistrictData :=
  fold_left (fun m d => <[dd_ubigeo d := d]> m) mitaData ∅.

Definition mergeOne (outcomeMap : gmap Z DistrictData) (poly : DistrictPolygon)
  : MergedDistrictData :=
  let outcome := outcomeMap !! dp_ubigeo poly in
  let centroid :=
    polygonCentroid (List.map (fun p : Vertex => (snd p, fst p)) (dp_polygon poly)) in
  {| ubigeo := dp_ubigeo poly;
     mita := dp_mita poly;
     polygon := dp_polygon poly;
     centroidLon := fst centroid;
     centroidLat := snd centroid;
     distance := outcome ≫= dd_distance;
     isInside := default (Z.eqb (dp_mita poly) 1) (outcome ≫= dd_isInside);
     consumption := outcome ≫= dd_consumption;
     stunting := outcome ≫= dd_stunting;
     roads := outcome ≫= dd_roads |}.

Definition mergeData (districtPolygons : list DistrictPolygon)
    (mitaData : list DistrictData) : list MergedDistrictData :=
  List.map (mergeOne (outcomeMapOf mitaData)) districtPolygons.

End MergeData.

(** The validity filter of [filterScatterData]. *)
Definition minValue (o : OutcomeType) : Q :=
  if OutcomeType_eqb o Roads then 0 else 1 # 1000.

Definition scatterValid (o : OutcomeType) (d : MergedDistrictData) : bool :=
  match distance d with
  | None => false
  | Some _ =>
      match outcomeValue o d with
      | None => false
      | Some value => Math.geb value (minValue o)
      end
  end.

Definition flippedDistance (d : MergedDistrictData) : Q :=
  if isInside d then Math.abs (asNumber (distance d))
  else - Math.abs (asNumber (distance d)).

Definition scatterPoint (o : OutcomeType) (d : MergedDistrictData)
  : ScatterDataPoint :=
  let rawValue := asNumber (outcomeValue o d) in
  let value := if OutcomeType_eqb o Stunting then rawValue * 100 else rawValue in
  {| base := d;
     scatterX := flippedDistance d;
     scatterY := value;
     stuntingY := option_map (fun s => s * 100) (stunting d);
     consumptionY := consumption d;
     roadsY := roads d |}.

Definition filterScatterData (mergedData : list MergedDistrictData)
    (currentOutcome : OutcomeType) : list ScatterDataPoint :=
  List.map (scatterPoint currentOutcome)
           (List.filter (scatterValid currentOutcome) mergedData).

(** [x !== null && x > 0] and [x !== null && x >= 0] *)
Definition positive (x : option Q) : bool :=
  match x with Some v => Math.ltb 0 v | None => false end.
Definition nonNegative (x : option Q) : bool :=
  match x with Some v => Math.geb v 0 | None => false end.

Definition anyOutcomeValid (d : MergedDistrictData) : bool :=
  match distance d with
  | None => false
  | Some _ => positive (stunting d) || positive (consumption d)
              || nonNegative (roads d)
  end.

Definition allScatterPoint (d : MergedDistrictData) : ScatterDataPoint :=
  {| base := d;
     scatterX := flippedDistance d;
     scatterY := 0;
     stuntingY := if positive (stunting d)
                  then option_map (fun s => s * 100) (stunting d) else None;
     consumptionY := if positive (consumption d) then consumption d else None;
     roadsY := if nonNegative (roads d) then roads d else None |}.

Definition getAllScatterData (mergedData : list MergedDistrictData)
  : list ScatterDataPoint :=
  List.map allScatterPoint (List.filter anyOutcomeValid mergedData).

Definition getOutcomeY (d : ScatterDataPoint) (outcomeKey : OutcomeType)
  : option Q :=
  match outcomeKey with
  | Stunting => stuntingY d
  | Consumption => consumptionY d
  | Roads => roadsY d
  end.

(** The validity rule in the words of the specification: the distance is
    present, the outcome's value is present, and the value passes the zero
    rule of the outcome. *)
Definition zeroRule (o : OutcomeType) (v : Q) : Prop :=
  match o with
  | Roads => 0 <= v
  | Stunting | Consumption => 1 # 1000 <= v
  end.

Definition qualifies (o : OutcomeType) (d : MergedDistrictData) : Prop :=
  distance d <> None /\ exists v, outcomeValue o d = Some v /\ zeroRule o v.

(** ** Boundary districts *)

(** A JavaScript number that may be one of the two infinities: the
    accumulators of [getBBox] start at [Infinity] and [-Infinity]. *)
Inductive Num : Type := NegInfinity | Fin (q : Q) | Infinity.

Module Num.

(** [Math.min(acc, x)] and [Math.max(acc, x)] for a finite [x]. *)
Definition min (acc : Num) (x : Q) : Num :=
  match acc with
  | NegInfinity => NegInfinity
  | Fin a => Fin (Math.min a x)
  | Infinity => Fin x
  end.

Definition max (acc : Num) (x : Q) : Num :=
  match acc with
  | NegInfinity => Fin x
  | Fin a => Fin (Math.max a x)
  | Infinity => Infinity
  end.

(** [a + t] for a finite [t]. *)
Definition add (a : Num) (t : Q) : Num :=
  match a with
  | Fin x => Fin (x + t)
  | NegInfinity => NegInfinity
  | Infinity => Infinity
  end.

(** [a < b] *)
Definition ltb (a b : Num) : bool :=
  match a, b with
  | NegInfinity, NegInfinity => false
  | NegInfinity, _ => true
  | Fin _, NegInfinity => false
  | Fin x, Fin y => Math.ltb x y
  | Fin _, Infinity => true
  | Infinity, _ => false
  end.

(** [a] is at most, resp. at least, the finite [x]. *)
Definition below (a : Num) (x : Q) : Prop :=
  match a with NegInfinity => True | Fin m => m <= x | Infinity => False end.
Definition above (a : Num) (x : Q) : Prop :=
  match a with Infinity => True | Fin m => x <= m | NegInfinity => False end.

End Num.

(** Tolerance for vertex matching (in degrees). *)
Definition VERTEX_TOLERANCE : Q := 1 # 1000.

Definition verticesMatch (v1 v2 : Vertex) : bool :=
  Math.ltb (Math.abs (fst v1 - fst v2)) VERTEX_TOLERANCE &&
  Math.ltb (Math.abs (snd v1 - snd v2)) VERTEX_TOLERANCE.

Record BBox : Type := mkBBox {
  minLat : Num; maxLat : Num; minLon : Num; maxLon : Num
}.

Definition getBBox (poly : list Vertex) : BBox :=
  fold_left
    (fun bb (v : Vertex) =>
       let '(lat, lon) := v in
       {| minLat := Num.min (minLat bb) lat;
          maxLat := Num.max (maxLat bb) lat;
          minLon := Num.min (minLon bb) lon;
          maxLon := Num.max (maxLon bb) lon |})
    poly
    {| minLat := Infinity; maxLat := NegInfinity;
       minLon := Infinity; maxLon := NegInfinity |}.

(** The bounding-box rejection test of [polygonsShareEdge]. *)
Definition bboxDisjoint (bbox1 bbox2 : BBox) : bool :=
  let tol := VERTEX_TOLERANCE * 2 in
  Num.ltb (Num.add (maxLat bbox1) tol) (minLat bbox2) ||
  Num.ltb (Num.add (maxLat bbox2) tol) (minLat bbox1) ||
  Num.ltb (Num.add (maxLon bbox1) tol) (minLon bbox2) ||
  Num.ltb (Num.add (maxLon bbox2) tol) (minLon bbox1).

(** The inner loop over [poly2] for one [v1]: [None] when the function
    returned [true] from inside the loop, otherwise the count reached. *)
Fixpoint sharedInner (v1 : Vertex) (poly2 : list Vertex) (sharedCount : nat)
  : option nat :=
  match poly2 with
  | [] => Some sharedCount
  | v2 :: rest =>
      if verticesMatch v1 v2 then
        let sharedCount := S sharedCount in
        if (2 <=? sharedCount)%nat then None
        else sharedInner v1 rest sharedCount
      else sharedInner v1 rest sharedCount
  end.

Fixpoint sharedOuter (poly1 poly2 : list Vertex) (sharedCount : nat) : bool :=
  match poly1 with
  | [] => false
  | v1 :: rest =>
      match sharedInner v1 poly2 sharedCount with
      | None => true
      | Some sharedCount => sharedOuter rest poly2 sharedCount
      end
  end.

Definition polygonsShareEdge (poly1 poly2 : list Vertex) : bool :=
  let bbox1 := getBBox poly1 in
  let bbox2 := getBBox poly2 in
  if bboxDisjoint bbox1 bbox2 then false
  else sharedOuter poly1 poly2 0.

Definition computeBoundaryDistricts (mergedData : list MergedDistrictData)
  : gset Z :=
  let mitaDistricts := List.filter (fun d => Z.eqb (mita d) 1) mergedData in
  let nonMitaDistricts := List.filter (fun d => Z.eqb (mita d) 0) mergedData in
  fold_left
    (fun boundaryUbigeos m =>
       fold_left
         (fun boundaryUbigeos nonMita =>
            if polygonsShareEdge (polygon m) (polygon nonMita)
            then {[ ubigeo nonMita ]} ∪ ({[ ubigeo m ]} ∪ boundaryUbigeos)
            else boundaryUbigeos)
         nonMitaDistricts boundaryUbigeos)
    mitaDistricts ∅.

(** The number of vertex pairs, one vertex from each polygon, that match
    within the tolerance. *)
Definition matchesOf (v1 : Vertex) (poly2 : list Vertex) : nat :=
  List.length (List.filter (verticesMatch v1) poly2).

Definition matchingPairs (poly1 poly2 : list Vertex) : nat :=
  list_sum (List.map (fun v1 => matchesOf v1 poly2) poly1).


(** A bounding box covers a vertex. *)
Definition covers (bb : BBox) (v : Vertex) : Prop :=
  Num.below (minLat bb) (fst v) /\ Num.above (maxLat bb) (fst v) /\
  Num.below (minLon bb) (snd v) /\ Num.above (maxLon bb) (snd v).

(** A mita district and a non-mita district whose polygons have at least
    two matching vertex pairs. *)
Definition borders (data : list MergedDistrictData)
    (m n : MergedDistrictData) : Prop :=
  In m data /\ In n data /\ mita m = 1%Z /\ mita n = 0%Z /\
  (2 <= matchingPairs (polygon m) (polygon n))%nat.

(** ** The scene

    The svg element and what the render effect puts under it.  An element
    carries its tag, its class, the key of the datum bound to it (the
    [ubigeo] of a district, for elements created by a keyed data join), its
    attributes and styles, and the transition scheduled on it, if any.
    Event handlers are not part of the scene description, and a scheduled
    transition is recorded, not played: time does not pass inside one
    render pass. *)

Inductive Class : Type :=
  | morph_dot | inside_line | outside_line | effect_line
  | effect_label_rect | effect_label_text
  | morphing_district | fading_district | district | district_bg
  | other_class (name : string).

Definition Class_eqb (a b : Class) : bool :=
  match a, b with
  | morph_dot, morph_dot | inside_line, inside_line
  | outside_line, outside_line | effect_line, effect_line
  | effect_label_rect, effect_label_rect
  | effect_label_text, effect_label_text
  | morphing_district, morphing_district
  | fading_district, fading_district
  | district, district | district_bg, district_bg => true
  | other_class n, other_class n' => String.eqb n n'
  | _, _ => false
  end.

(** The value of the [d] attribute of a path: the empty string, the
    ['M' ... 'L' ... 'Z'] string through the given points, or what
    [d3.geoPath] draws for a ring under the projection of the frame. *)
Inductive PathData : Type :=
  | EmptyPath
  | MorphedPath (coords : list (Q * Q))
  | GeoPath (ring : list (Q * Q)).

Inductive Attr : Type :=
  | ANum (x : Q)
  | AStr (s : string)
  | APath (d : PathData)
  | ATranslate (x y : Q).

Record Transition : Type := mkTransition {
  tr_duration : Q;
  tr_attrs : list (string * Attr);
  tr_remove : bool
}.

Record Element : Type := mkElement {
  el_tag : string;
  el_class : Class;
  el_key : option Z;
  el_attrs : gmap string Attr;
  el_style : gmap string string;
  el_transition : option Transition
}.

(** A child of the svg root: a primitive, or the ['.main-group'] group
    with its transform and its children. *)
Inductive Node : Type :=
  | Prim (e : Element)
  | MainGroup (transform : option (Q * Q)) (children : list Element).

Definition Scene : Type := list Node.

(** [selection.append(tag).attr('class', cls)] for one bound datum *)
Definition newElement (tag : string) (cls : Class) (key : option Z) : Element :=
  mkElement tag cls key ∅ ∅ None.

(** [.attr(name, value)], [.style(name, value)], [.transition()...] *)
Definition attr (name : string) (v : Attr) (e : Element) : Element :=
  mkElement (el_tag e) (el_class e) (el_key e)
            (<[name := v]> (el_attrs e)) (el_style e) (el_transition e).

Definition style (name value : string) (e : Element) : Element :=
  mkElement (el_tag e) (el_class e) (el_key e)
            (el_attrs e) (<[name := value]> (el_style e)) (el_transition e).

Definition transition (tr : Transition) (e : Element) : Element :=
  mkElement (el_tag e) (el_class e) (el_key e)
            (el_attrs e) (el_style e) (Some tr).

Definition hasKey (k : Z) (e : Element) : bool :=
  match el_key e with Some k' => Z.eqb k k' | None => false end.

Definition removeClasses (classes : list Class) (children : list Element)
  : list Element :=
  List.filter (fun e => negb (existsb (Class_eqb (el_class e)) classes)) children.

Definition keepClasses (classes : list Class) (children : list Element)
  : list Element :=
  List.filter (fun e => existsb (Class_eqb (el_class e)) classes) children.

(** *** d3 data joins on the children of a group

    [g.selectAll('.cls').data(data, key).join(enter, update, exit)]: an
    element of the class whose key is the key of a datum is updated in
    place, one without a datum goes through [exit] (which removes it, or
    keeps it while it fades), and a datum without an element enters as a
    new last child.  District ids are the keys; the order among siblings
    is not relied upon. *)
Section Join.

Context {D : Type}.
Variable cls : Class.
Variable key : D -> Z.
Variable enter : D -> Element.
Variable update : D -> Element -> Element.
Variable exit : Element -> option Element.

Definition joinKeyed (data : list D) (children : list Element)
  : list Element :=
  flat_map
    (fun e =>
       if Class_eqb (el_class e) cls then
         match el_key e ≫= (fun k => List.find (fun d => Z.eqb (key d) k) data) with
         | Some d => [update d e]
         | None => match exit e with Some e' => [e'] | None => [] end
         end
       else [e])
    children
  ++ List.map enter
       (List.filter
          (fun d => negb (existsb (fun e => Class_eqb (el_class e) cls
                                            && hasKey (key d) e) children))
          data).

(** [.data(data).join(tag)] without a key function: by index. *)
Fixpoint joinIndexed (data : list D) (children : list Element)
  : list Element :=
  match children with
  | [] => List.map enter data
  | e :: rest =>
      if Class_eqb (el_class e) cls then
        match data with
        | d :: data' => update d e :: joinIndexed data' rest
        | [] => joinIndexed [] rest
        end
      else e :: joinIndexed data rest
  end.

End Join.

(** [exit => exit.remove()], the default of [join]. *)
Definition exitRemove (e : Element) : option Element := None.

(** ** colors.ts (the entries the renderers use) *)
Module colors.
Definition mita : string := "#1a1e28".
Definition mitaStroke : string := "#363d4d".
Definition nonmita : string := "#718096".
Definition nonmitaLight : string := "#a0aec0".
End colors.

(** ** MorphRenderer *)

(** [d3.GeoProjection]: a [[lon, lat]] pair to a pixel pair, or [null]. *)
Definition Projection : Type := Q * Q -> option (Q * Q).

(** [MORPH_TIMING] of the constants module. *)
Record MorphTiming : Type := mkMorphTiming {
  mt_start : Q;
  mt_end : Q;
  dotFadeStart : Q;
  dotFadeEnd : Q
}.

Definition easeInOutQuad (t : Q) : Q :=
  if Math.ltb t (1 # 2) then 2 * t * t
  else 1 - ((-(2) * t + 2) * (-(2) * t + 2)) / 2.

(** [xScale(v)], [xScale.range()[1]], [yScale.range()[0]] *)
Definition range0 (s : ScaleLinear) : Q := fst (sc_range s).
Definition range1 (s : ScaleLinear) : Q := snd (sc_range s).

Definition fillOf (d : MergedDistrictData) : string :=
  if isInside d then colors.mita else colors.nonmitaLight.

Section MorphRenderer.

(** The constants module is not among the sources; its values are
    parameters of the renderers. *)
Variable MORPH_TIMING : MorphTiming.
Variable OPACITY_dot : Q.

(** [Math.sqrt], [Math.atan2], [Math.cos], [Math.sin] *)
Variable Math_sqrt : Q -> Q.
Variable Math_atan2 : Q -> Q -> Q.
Variable Math_cos : Q -> Q.
Variable Math_sin : Q -> Q.

Definition renderFadingDistricts (children : list Element)
    (projection : Projection) (mergedData : list MergedDistrictData)
    (scatterUbigeos : gset Z) (easedMorphT : Q) : list Element :=
  let fadeOpacity := Math.max 0 ((1 # 2) - easedMorphT * (8 # 10)) in
  let districtsWithoutData :=
    List.filter (fun d => negb (bool_decide (ubigeo d ∈ scatterUbigeos)))
                mergedData in
  let attrs (d : MergedDistrictData) (e : Element) :=
    attr "opacity" (ANum fadeOpacity)
      (attr "stroke" (AStr "none")
         (attr "fill" (AStr (if Z.eqb (mita d) 1 then colors.mita
                             else colors.nonmitaLight))
            (attr "d" (APath (GeoPath
                         (List.map (fun p : Vertex => (snd p, fst p)) (polygon d))))
               e))) in
  joinIndexed fading_district
    (fun d => attrs d (newElement "path" fading_district None))
    attrs
    districtsWithoutData children.

(** The clamped final position of a marker, as the scatter paths set it. *)
Definition finalCx (xScale : ScaleLinear) (d : ScatterDataPoint) : Q :=
  Math.clampTo 0 (range1 xScale) (scale_apply xScale (scatterX d)).

Definition finalCy (yScale : ScaleLinear) (d : ScatterDataPoint) : Q :=
  Math.clampTo 0 (range0 yScale) (scale_apply yScale (scatterY d)).

Definition outcomeCy (yScale : ScaleLinear) (innerHeight : Q)
    (currentOutcome : OutcomeType) (d : ScatterDataPoint) : Q :=
  match getOutcomeY d currentOutcome with
  | Some yVal => Math.clampTo 0 (range0 yScale) (scale_apply yScale yVal)
  | None => innerHeight / 2
  end.

Definition outcomeOpacity (currentOutcome : OutcomeType) (d : ScatterDataPoint)
  : Q :=
  match getOutcomeY d currentOutcome with
  | Some _ => OPACITY_dot
  | None => 0
  end.

Definition renderOutcomeTransition (children : list Element)
    (allScatterData : list ScatterDataPoint) (xScale yScale : ScaleLinear)
    (innerHeight : Q) (currentOutcome : OutcomeType) : list Element :=
  joinKeyed morph_dot (fun d => ubigeo (base d))
    (fun d =>
       transition
         (mkTransition 600 [("opacity", ANum (outcomeOpacity currentOutcome d))] false)
         (style "cursor" "pointer"
            (attr "opacity" (ANum 0)
               (attr "fill" (AStr (fillOf (base d)))
                  (attr "r" (ANum 5)
                     (attr "cy" (ANum (outcomeCy yScale innerHeight currentOutcome d))
                        (attr "cx" (ANum (finalCx xScale d))
                           (newElement "circle" morph_dot
                                       (Some (ubigeo (base d)))))))))))
    (fun d e =>
       transition
         (mkTransition 600
            [("cy", ANum (outcomeCy yScale innerHeight currentOutcome d));
             ("opacity", ANum (outcomeOpacity currentOutcome d))] false)
         (attr "cx" (ANum (finalCx xScale d))
            (style "cursor" "pointer" e)))
    (fun e => Some (transition (mkTransition 600 [("opacity", ANum 0)] true) e))
    allScatterData children.

(** The [d] attribute of one morphing district. *)
Definition morphingDistrictCenter (centroid : Q * Q)
    (xScale yScale : ScaleLinear) (easedMorphT : Q) (d : ScatterDataPoint)
  : Q * Q :=
  let targetX := scale_apply xScale (scatterX d) in
  let targetY := scale_apply yScale (scatterY d) in
  (fst centroid + (targetX - fst centroid) * easedMorphT,
   snd centroid + (targetY - snd centroid) * easedMorphT).

Definition morphingDistrictPath (projection : Projection)
    (xScale yScale : ScaleLinear) (easedMorphT : Q) (d : ScatterDataPoint)
  : PathData :=
  let districtScale := 1 - easedMorphT in
  let roundness := easedMorphT in
  match projection (centroidLon (base d), centroidLat (base d)) with
  | None => EmptyPath
  | Some centroid =>
      let '(currentCenterX, currentCenterY) :=
        morphingDistrictCenter centroid xScale yScale easedMorphT d in
      let projectedPoints :=
        omap (fun p : Vertex => projection (snd p, fst p)) (polygon (base d)) in
      if (List.length projectedPoints <? 3)%nat then EmptyPath
      else
        let avgRadius :=
          fold_left
            (fun sum (p : Q * Q) =>
               let dx := fst p - fst centroid in
               let dy := snd p - snd centroid in
               sum + Math_sqrt (dx * dx + dy * dy))
            projectedPoints 0
          / inject_Z (Z.of_nat (List.length projectedPoints)) in
        let targetRadius := 5 + (avgRadius - 5) * districtScale in
        MorphedPath
          (List.map
             (fun projected : Q * Q =>
                let dx := fst projected - fst centroid in
                let dy := snd projected - snd centroid in
                let angle := Math_atan2 dy dx in
                let circleX := Math_cos angle * targetRadius in
                let circleY := Math_sin angle * targetRadius in
                let blendedX := dx * (1 - roundness) * districtScale
                                + circleX * roundness * districtScale in
                let blendedY := dy * (1 - roundness) * districtScale
                                + circleY * roundness * districtScale in
                (currentCenterX + blendedX, currentCenterY + blendedY))
             projectedPoints)
  end.

Definition renderMorphingDistricts (children : list Element)
    (projection : Projection) (scatterData : list ScatterDataPoint)
    (xScale yScale : ScaleLinear) (easedMorphT : Q) : list Element :=
  let attrs (d : ScatterDataPoint) (e : Element) :=
    attr "opacity" (ANum (OPACITY_dot * (1 - easedMorphT * (3 # 10))))
      (attr "stroke-width" (ANum (Math.max (1 # 2) (1 - easedMorphT)))
         (attr "stroke" (AStr (if isInside (base d) then colors.mitaStroke
                               else colors.nonmita))
            (attr "fill" (AStr (fillOf (base d)))
               (attr "d" (APath (morphingDistrictPath projection xScale yScale
                                                      easedMorphT d))
                  e)))) in
  joinKeyed morphing_district (fun d => ubigeo (base d))
    (fun d => attrs d (newElement "path" morphing_district
                                  (Some (ubigeo (base d)))))
    attrs exitRemove scatterData children.

(** The [cx] and [cy] callbacks of [renderMorphingDots]. *)
Definition morphingDotCx (projection : Projection) (xScale : ScaleLinear)
    (easedMorphT : Q) (d : ScatterDataPoint) : Q :=
  let geoCoord := projection (centroidLon (base d), centroidLat (base d)) in
  let mapX := match geoCoord with Some c => fst c | None => 0 end in
  let scatterX := scale_apply xScale (scatterX d) in
  let interpolatedX := mapX + (scatterX - mapX) * easedMorphT in
  Math.max 0 (Math.min (range1 xScale) interpolatedX).

Definition morphingDotCy (projection : Projection) (yScale : ScaleLinear)
    (easedMorphT : Q) (d : ScatterDataPoint) : Q :=
  let geoCoord := projection (centroidLon (base d), centroidLat (base d)) in
  let mapY := match geoCoord with Some c => snd c | None => 0 end in
  let scatterY := scale_apply yScale (scatterY d) in
  let interpolatedY := mapY + (scatterY - mapY) * easedMorphT in
  Math.max 0 (Math.min (range0 yScale) interpolatedY).

Definition renderMorphingDots (children : list Element)
    (projection : Projection) (scatterData : list ScatterDataPoint)
    (xScale yScale : ScaleLinear) (morphT easedMorphT : Q) : list Element :=
  if Math.leb morphT (dotFadeStart MORPH_TIMING) then children
  else
    let dotOpacity :=
      Math.min 1 ((morphT - dotFadeStart MORPH_TIMING)
                  / (dotFadeEnd MORPH_TIMING - dotFadeStart MORPH_TIMING)) in
    let dotRadius := 5 * easedMorphT in
    let attrs (d : ScatterDataPoint) (e : Element) :=
      style "cursor" (if Math.ltb (8 # 10) morphT then "pointer" else "default")
        (attr "opacity" (ANum (dotOpacity * OPACITY_dot))
           (attr "fill" (AStr (fillOf (base d)))
              (attr "r" (ANum dotRadius)
                 (attr "cy" (ANum (morphingDotCy projection yScale easedMorphT d))
                    (attr "cx" (ANum (morphingDotCx projection xScale easedMorphT d))
                       e))))) in
    joinKeyed morph_dot (fun d => ubigeo (base d))
      (fun d => attrs d (newElement "circle" morph_dot (Some (ubigeo (base d)))))
      attrs exitRemove scatterData children.

Definition renderFullScatterDots (children : list Element)
    (scatterData : list ScatterDataPoint) (xScale yScale : ScaleLinear)
  : list Element :=
  let attrs (d : ScatterDataPoint) (e : Element) :=
    style "cursor" "pointer"
      (attr "opacity" (ANum OPACITY_dot)
         (attr "fill" (AStr (fillOf (base d)))
            (attr "r" (ANum 5)
               (attr "cy" (ANum (finalCy yScale d))
                  (attr "cx" (ANum (finalCx xScale d)) e))))) in
  joinKeyed morph_dot (fun d => ubigeo (base d))
    (fun d => attrs d (newElement "circle" morph_dot (Some (ubigeo (base d)))))
    attrs exitRemove scatterData children.

(** The branch [renderMorph] takes. *)
Inductive MorphBranch : Type :=
  | OutcomeTransitionBranch | PhaseSettleBranch | MorphingBranch
  | FullScatterBranch.

Definition morphBranch (morphT : Q) (isOutcomeTransition isPhaseTransition : bool)
  : MorphBranch :=
  if Math.geb morphT 1 && isOutcomeTransition then OutcomeTransitionBranch
  else if Math.geb morphT 1 && isPhaseTransition then PhaseSettleBranch
  else if Math.ltb morphT 1 then MorphingBranch
  else FullScatterBranch.

Definition renderMorph (children : list Element) (projection : Projection)
    (xScale yScale : ScaleLinear) (mergedData : list MergedDistrictData)
    (scatterData allScatterData : list ScatterDataPoint)
    (scatterUbigeos : gset Z) (morphT : Q) (currentOutcome : OutcomeType)
    (innerHeight : Q) (isOutcomeTransition isPhaseTransition : bool)
  : list Element :=
  let easedMorphT := easeInOutQuad morphT in
  let children :=
    if Math.ltb morphT 1
    then renderFadingDistricts children projection mergedData scatterUbigeos
                               easedMorphT
    else children in
  match morphBranch morphT isOutcomeTransition isPhaseTransition with
  | OutcomeTransitionBranch =>
      renderOutcomeTransition children allScatterData xScale yScale innerHeight
                              currentOutcome
  | PhaseSettleBranch =>
      renderFullScatterDots children scatterData xScale yScale
  | MorphingBranch =>
      renderMorphingDots
        (renderMorphingDistricts children projection scatterData xScale yScale
                                 easedMorphT)
        projection scatterData xScale yScale morphT easedMorphT
  | FullScatterBranch =>
      renderFullScatterDots children scatterData xScale yScale
  end.

End MorphRenderer.

(** ** UnifiedViz: the main render effect *)

Inductive ScatterPhase : Type := Dots | Ols | NaiveEffect | Effect.

Definition ScatterPhase_eqb (a b : ScatterPhase) : bool :=
  match a, b with
  | Dots, Dots | Ols, Ols | NaiveEffect, NaiveEffect | Effect, Effect => true
  | _, _ => false
  end.

Record Margin : Type := mkMargin {
  m_top : Q; m_right : Q; m_bottom : Q; m_left : Q
}.

(** What one run of the effect reads: the animated progress, the active
    outcome and scatter phase, the animated zoom, the merged table and the
    inner dimensions. *)
Record Frame : Type := mkFrame {
  currentProgress : Q;
  currentOutcome : OutcomeType;
  scatterPhase : ScatterPhase;
  currentZoom : Q;
  mergedData : list MergedDistrictData;
  innerWidth : Q;
  innerHeight : Q
}.

(** What persists between runs: the svg and the two refs.  A ref holds a
    string; [None] stands for the empty string. *)
Record RenderState : Type := mkRenderState {
  svg : Scene;
  prevOutcomeRef : option OutcomeType;
  prevScatterPhaseRef : option ScatterPhase
}.

(** [ref.current !== value && ref.current !== ''] *)
Definition refDiffers {A : Type} (eqb : A -> A -> bool) (ref : option A)
    (value : A) : bool :=
  match ref with
  | Some prev => negb (eqb prev value)
  | None => false
  end.

Definition isOutcomeOnlyTransition (fr : Frame) (st : RenderState) : bool :=
  Math.geb (currentProgress fr) 1 &&
  refDiffers OutcomeType_eqb (prevOutcomeRef st) (currentOutcome fr).

Definition isPhaseTransition (fr : Frame) (st : RenderState) : bool :=
  Math.geb (currentProgress fr) 1 &&
  refDiffers ScatterPhase_eqb (prevScatterPhaseRef st) (scatterPhase fr).

(** The classes the selective clear leaves in place (with ['.main-group']). *)
Definition preservedClasses : list Class :=
  [morph_dot; inside_line; outside_line; effect_line;
   effect_label_rect; effect_label_text].

(** [svg.selectAll('*:not(.morph-dot)...:not(.main-group)').remove()] *)
Definition clearPreserving (s : Scene) : Scene :=
  flat_map
    (fun n =>
       match n with
       | Prim e =>
           if existsb (Class_eqb (el_class e)) preservedClasses
           then [Prim e] else []
       | MainGroup tr children =>
           [MainGroup tr (keepClasses preservedClasses children)]
       end)
    s.

(** [!svg.select('.main-group').empty()] *)
Definition hasMainGroup (s : Scene) : bool :=
  existsb (fun n => match n with MainGroup _ _ => true | Prim _ => false end) s.

(** An operation on [g], the first ['.main-group'] of the svg. *)
Fixpoint overMainGroup (f : list Element -> list Element) (s : Scene) : Scene :=
  match s with
  | [] => []
  | MainGroup tr children :: rest => MainGroup tr (f children) :: rest
  | n :: rest => n :: overMainGroup f rest
  end.

Definition getOrCreateMainGroup (margin : Margin) (s : Scene) : Scene :=
  if hasMainGroup s then
    overMainGroup
      (removeClasses [morphing_district; fading_district; district; district_bg])
      s
  else s ++ [MainGroup (Some (m_left margin, m_top margin)) []].

Inductive RenderPath : Type :=
  | MapPath | OutcomeTransitionPath | PhaseSettlePath | MorphingPath
  | FullScatterPath.

(** The rendering routines that are not among the sources at hand. *)

(** Modelled from the spec: [renderScatterBackgrounds], [renderScatterLabels]
    and [renderScatterAxes] of the scatter renderer (only their call sites,
    which hand them [g], are among the sources).  "Background region
    rectangles, axis ticks [...] MUST be children of one single
    transform-bearing container, and MUST NOT apply a redundant translation
    of their own."  Their geometry is left out. *)
Definition renderScatterBackgrounds (children : list Element) : list Element :=
  children ++ [newElement "rect" (other_class "mita-bg") None;
               newElement "rect" (other_class "nonmita-bg") None].

Definition renderScatterLabels (children : list Element) : list Element :=
  children ++ [newElement "text" (other_class "region-label") None].

Definition renderScatterAxes (children : list Element) : list Element :=
  children ++ [newElement "line" (other_class "axis-tick") None].

(** Modelled from the spec: [renderMap] of the map renderer (only its call
    site, which hands it [g], is among the sources).  "Renders one path per
    district using the geographic projection; district fill keyed by
    mitaFlag." *)
Definition renderMap (children : list Element)
    (mergedData : list MergedDistrictData) : list Element :=
  let attrs (d : MergedDistrictData) (e : Element) :=
    attr "fill" (AStr (if Z.eqb (mita d) 1 then colors.mita
                       else colors.nonmitaLight))
      (attr "d" (APath (GeoPath
                   (List.map (fun p : Vertex => (snd p, fst p)) (polygon d))))
         e) in
  joinKeyed district ubigeo
    (fun d => attrs d (newElement "path" district (Some (ubigeo d))))
    attrs exitRemove mergedData children.

(** Modelled from the spec: [renderFittedLines] of the line renderer (only
    its call site, which hands it the svg and the margin, is among the
    sources).  "Draws up to two line segments (one per side of the
    boundary) [...] plus optional annotation elements for phases beyond the
    basic regression"; "fitted lines [...] MUST be children of one single
    transform-bearing container, and MUST NOT apply a redundant translation
    of their own."  [inside] and [outside] say which sides have a fitted
    line; the geometry of the lines is left out. *)
Definition renderFittedLines (s : Scene) (inside outside : bool)
    (scatterPhase : ScatterPhase) (margin : Margin) : Scene :=
  let layer (tag : string) (cls : Class) (present : bool)
            (children : list Element) :=
    joinIndexed cls (fun _ : unit => newElement tag cls None) (fun _ e => e)
                (if present then [tt] else []) children in
  let annotated :=
    match scatterPhase with
    | NaiveEffect | Effect => true
    | Dots | Ols => false
    end in
  overMainGroup
    (fun children =>
       layer "text" effect_label_text annotated
         (layer "rect" effect_label_rect annotated
            (layer "line" effect_line annotated
               (layer "line" outside_line outside
                  (layer "line" inside_line inside children)))))
    s.

Section UnifiedViz.

Variable MORPH_TIMING : MorphTiming.
Variable OPACITY_dot : Q.
Variable DEFAULT_MARGIN : Margin.
Variable Math_sqrt : Q -> Q.
Variable Math_atan2 : Q -> Q -> Q.
Variable Math_cos : Q -> Q.
Variable Math_sin : Q -> Q.

(** [createProjection], [createYScales] (per outcome) and the sides for
    which [calculateFittedLines] returns a line: functions of the viz
    module whose sources are not at hand. *)
Variable createProjection :
  list MergedDistrictData -> Q -> Q -> Q -> Projection.
Variable createYScales :
  list ScatterDataPoint -> Q -> OutcomeType -> ScaleLinear.
Variable calculateFittedLines :
  list ScatterDataPoint -> OutcomeType -> bool * bool.

(** The sub-progress handed to [renderMorph]. *)
Definition morphT (t : Q) : Q :=
  Math.min ((t - mt_start MORPH_TIMING)
            / (mt_end MORPH_TIMING - mt_start MORPH_TIMING)) 1.

(** Which rendering routine one run of the effect reaches. *)
Definition renderPath (fr : Frame) (st : RenderState) : RenderPath :=
  let t := currentProgress fr in
  if Math.ltb t (3 # 10) then MapPath
  else
    match morphBranch (morphT t) (isOutcomeOnlyTransition fr st)
                      (isPhaseTransition fr st) with
    | OutcomeTransitionBranch => OutcomeTransitionPath
    | PhaseSettleBranch => PhaseSettlePath
    | MorphingBranch => MorphingPath
    | FullScatterBranch => FullScatterPath
    end.

Definition renderEffect (fr : Frame) (st : RenderState) : RenderState :=
  let margin := DEFAULT_MARGIN in
  let t := currentProgress fr in
  let scatterData := filterScatterData (mergedData fr) (currentOutcome fr) in
  let allScatterData := getAllScatterData (mergedData fr) in
  let fittedLines := calculateFittedLines scatterData (currentOutcome fr) in
  (* Transition detection *)
  let isAtFullScatter := Math.geb t 1 in
  let shouldPreserveElements :=
    isOutcomeOnlyTransition fr st || isPhaseTransition fr st in
  (* Clear elements appropriately *)
  let s :=
    if shouldPreserveElements || isAtFullScatter
    then clearPreserving (svg st) else [] in
  (* Get or create main group *)
  let s := getOrCreateMainGroup margin s in
  (* Create projection and scales *)
  let projection :=
    createProjection (mergedData fr) (currentZoom fr)
                     (innerWidth fr) (innerHeight fr) in
  let xScale := createXScale (innerWidth fr) in
  let yScale := createYScales allScatterData (innerHeight fr) (currentOutcome fr) in
  let s :=
    overMainGroup
      (fun g => renderScatterAxes (renderScatterLabels (renderScatterBackgrounds g)))
      s in
  let scatterUbigeos : gset Z :=
    list_to_set (List.map (fun d => ubigeo (base d)) scatterData) in
  (* Render based on progress *)
  let s :=
    if Math.ltb t (3 # 10) then
      overMainGroup (fun g => renderMap g (mergedData fr)) s
    else
      overMainGroup
        (fun g =>
           renderMorph MORPH_TIMING OPACITY_dot Math_sqrt Math_atan2 Math_cos
                       Math_sin g projection xScale yScale (mergedData fr)
                       scatterData allScatterData scatterUbigeos (morphT t)
                       (currentOutcome fr) (innerHeight fr)
                       (isOutcomeOnlyTransition fr st) (isPhaseTransition fr st))
        s in
  (* Fitted lines and effect annotation (only at full scatter) *)
  let s :=
    if Math.geb t 1
    then renderFittedLines s (fst fittedLines) (snd fittedLines)
                           (scatterPhase fr) margin
    else s in
  {| svg := s;
     prevOutcomeRef := Some (currentOutcome fr);
     prevScatterPhaseRef :=
       if Math.geb t 1 then Some (scatterPhase fr) else prevScatterPhaseRef st |}.

(** The scene one run of the effect has built when it reaches the dispatch
    on the progress: the svg cleared, the main group found or created, the
    backgrounds, labels and axes rendered into it. *)
Definition sceneBeforeDispatch (fr : Frame) (st : RenderState) : Scene :=
  let shouldPreserveElements :=
    isOutcomeOnlyTransition fr st || isPhaseTransition fr st in
  let s :=
    if shouldPreserveElements || Math.geb (currentProgress fr) 1
    then clearPreserving (svg st) else [] in
  overMainGroup
    (fun g => renderScatterAxes (renderScatterLabels (renderScatterBackgrounds g)))
    (getOrCreateMainGroup DEFAULT_MARGIN s).

(** The state at mount: an empty svg and the refs initialised from the
    props. *)
Definition mountState (outcome : OutcomeType) (phase : ScatterPhase)
  : RenderState :=
  {| svg := []; prevOutcomeRef := Some outcome;
     prevScatterPhaseRef := Some phase |}.

Definition runFrames (frames : list Frame) (st : RenderState) : RenderState :=
  fold_left (fun st fr => renderEffect fr st) frames st.

End UnifiedViz.

(** *** The alignment invariant *)

Definition noOwnTransform (e : Element) : Prop :=
  el_attrs e !! "transform" = None.

(** Every child of the svg root is the main group, translated by the
    margin, there is at most one, and none of its children carries a
    transform of its own. *)
Definition aligned (margin : Margin) (s : Scene) : Prop :=
  (List.length s <= 1)%nat /\
  Forall
    (fun n =>
       match n with
       | Prim _ => False
       | MainGroup tr children =>
           tr = Some (m_left margin, m_top margin) /\
           Forall noOwnTransform children
       end)
    s.

(** The classes of the point markers and of the fitted-line layer. *)
Definition markerOrLine (c : Class) : bool :=
  existsb (Class_eqb c) preservedClasses.

(** ** Sample inputs *)

Module Sample.

Definition timing : MorphTiming := mkMorphTiming (3 # 10) 1 (1 # 2) (8 # 10).
Definition margin : Margin := mkMargin 40 30 40 60.

(** District 7 (mita, 25 km inside, stunting 0.12) and district 9 (non-mita,
    40 km outside, stunting 0.30). *)
Definition d7 : MergedDistrictData :=
  mkMerged 7 1 [(0, 0); (0, 1); (1, 1)] 3 4 (Some 25) true None
           (Some (12 # 100)) None.
Definition d9 : MergedDistrictData :=
  mkMerged 9 0 [(0, 1); (1, 1); (1, 2)] 3 5 (Some 40) false None
           (Some (30 # 100)) None.

Definition yScale : ScaleLinear := mkScale (0, 100) (430, 0) false.

(** A projection that puts every point left of and below the plot, and one
    that yields no coordinate. *)
Definition outside : Projection := fun _ => Some (-(100), 1000).
Definition failing : Projection := fun _ => None.

Definition frame : Frame := mkFrame (9 # 10) Stunting Dots 1 [d7; d9] 610 430.
Definition state : RenderState := mkRenderState [] (Some Stunting) (Some Dots).

Definition zero1 : Q -> Q := fun _ => 0.
Definition zero2 : Q -> Q -> Q := fun _ _ => 0.

Definition scene : Scene :=
  svg (renderEffect timing (7 # 10) margin zero1 zero2 zero1 zero1
         (fun _ _ _ _ => outside) (fun _ h _ => mkScale (0, 100) (h, 0) false)
         (fun _ _ => (true, true)) frame state).

(** Two adjacent squares that share the two vertices of one edge, one mita
    and one not, and a third district that touches the second in a single
    vertex. *)
Definition squareA : MergedDistrictData :=
  mkMerged 1 1 [(0, 0); (0, 1); (1, 1); (1, 0)] 0 0 None true None None None.
Definition squareB : MergedDistrictData :=
  mkMerged 2 0 [(0, 1); (1, 1); (1, 2); (0, 2)] 0 0 None false None None None.
Definition corner : MergedDistrictData :=
  mkMerged 3 1 [(1, 2); (5, 5); (5, 6)] 0 0 None true None None None.

End Sample.

(** ** UnifiedViz: the animation loops

    The three effects that animate the morph progress, the zoom and the
    border opacity run the same loop: the effect captures the current value
    as the start and the current time, cancels the pending frame and
    requests a new one; each frame callback sets the value and requests the
    next frame while the eased fraction is below 1. *)

(** One call of [animate(time)]: the value it sets and whether it requests
    another frame. *)
Definition animate (start target duration startTime time : Q) : Q * bool :=
  let elapsed := time - startTime in
  let t := Math.min (elapsed / duration) 1 in
  let eased := if Math.ltb t (1 # 2) then 2 * t * t
               else 1 - ((-(2) * t + 2) * (-(2) * t + 2)) / 2 in
  let newProgress := start + (target - start) * eased in
  (newProgress, Math.ltb t 1).

(** The state of one animated value: the value and the loop whose frame is
    pending, if any (its start value, target and start time). *)
Record Animated : Type := mkAnimated {
  an_value : Q;
  an_loop : option (Q * Q * Q)
}.

Inductive AnimationEvent : Type :=
  | Retarget (target now : Q)
  | FrameCallback (time : Q).

Definition animationStep (duration : Q) (s : Animated) (ev : AnimationEvent)
  : Animated :=
  match ev with
  | Retarget target now =>
      {| an_value := an_value s;
         an_loop := Some (an_value s, target, now) |}
  | FrameCallback time =>
      match an_loop s with
      | None => s
      | Some (start, target, startTime) =>
          let '(v, again) := animate start target duration startTime time in
          {| an_value := v;
             an_loop := if again then Some (start, target, startTime)
                        else None |}
      end
  end.

Definition runAnimation (duration : Q) (events : list AnimationEvent)
    (s : Animated) : Animated :=
  fold_left (animationStep duration) events s.

(** [zoomLevel === 'peru' ? 0 : 1] and [showDistricts ? 1 : 0] *)
Inductive ZoomLevel : Type := peru | mitaZoom.
Definition zoomTarget (zoomLevel : ZoomLevel) : Q :=
  match zoomLevel with peru => 0 | mitaZoom => 1 end.
Definition borderTarget (showDistricts : bool) : Q :=
  if showDistricts then 1 else 0.

(** No frame callback carries a time before the start of its loop, and
    every target lies in [[lo, hi]]. *)
Fixpoint timely (duration lo hi : Q) (events : list AnimationEvent)
    (s : Animated) : Prop :=
  match events with
  | [] => True
  | ev :: rest =>
      match ev with
      | Retarget target _ => lo <= target <= hi
      | FrameCallback time =>
          match an_loop s with
          | Some (_, _, startTime) => startTime <= time
          | None => True
          end
      end /\
      timely duration lo hi rest (animationStep duration s ev)
  end.

(** The loop, if one is pending, runs between two values of [[lo, hi]]. *)
Definition loopWithin (lo hi : Q) (s : Animated) : Prop :=
  lo <= an_value s <= hi /\
  match an_loop s with
  | Some (start, target, _) => lo <= start <= hi /\ lo <= target <= hi
  | None => True
  end.

(** ** Reading a scene *)

(** The elements of a class among the children of a group, and their keys. *)
Definition ofClass (cls : Class) (children : list Element) : list Element :=
  List.filter (fun e => Class_eqb (el_class e) cls) children.

Definition keysOf (cls : Class) (children : list Element) : list (option Z) :=
  List.map el_key (ofClass cls children).

(** Equality of two points, coordinate by coordinate. *)
Definition samePoint (a b : Q * Q) : Prop := fst a == fst b /\ snd a == snd b.

(** ** ScrollyStory: the narrative steps *)

Module ScrollyStory.

Inductive HighlightMode : Type :=
  | hl_none | hl_boundary | hl_mita_only | hl_nonmita_only.

Inductive DotEmphasis : Type := em_normal | em_pulse | em_dimmed.

Record StepData : Type := mkStepData {
  id : string;
  title : string;
  text : string;
  morphProgress : Q;
  outcome : OutcomeType;
  showDistricts : bool;
  scatterPhase : ScatterPhase;
  zoomLevel : ZoomLevel;
  highlightMode : option HighlightMode;
  dotEmphasis : option DotEmphasis;
  showAxisGuide : option bool
}.

Definition step_context : StepData :=
  {| id := "context";
     title := "The colonial labor draft";
     text := "Under the mita, Spanish colonial administrators forced indigenous communities within a designated catchment area to send one-seventh of their adult male population to work in the silver mines of Potosí and the mercury mines of Huancavelica each year. The brutal conditions killed many workers.";
     morphProgress := 0;
     outcome := Stunting;
     showDistricts := false;
     scatterPhase := Dots;
     zoomLevel := peru;
     highlightMode := Some hl_mita_only;
     dotEmphasis := None;
     showAxisGuide := None |}.

Definition step_research_question : StepData :=
  {| id := "research-question";
     title := "A 450-year-old question";
     text := "Spain abolished the mita in 1812. But does this colonial institution still affect Peru today? Are communities that suffered under the mita still worse off than their neighbors who escaped it?";
     morphProgress := 0;
     outcome := Stunting;
     showDistricts := false;
     scatterPhase := Dots;
     zoomLevel := mitaZoom;
     highlightMode := Some hl_none;
     dotEmphasis := None;
     showAxisGuide := None |}.

Definition step_naive_comparison : StepData :=
  {| id := "naive-comparison";
     title := "Why we can't just compare";
     text := "We could simply compare outcomes in mita vs. non-mita regions. But this would be misleading: maybe the regions differed before 1573. The mita area centered around Cusco—the Inca capital with unique history and geography. Any differences today might reflect pre-existing gaps, not the mita itself.";
     morphProgress := 0;
     outcome := Stunting;
     showDistricts := true;
     scatterPhase := Dots;
     zoomLevel := mitaZoom;
     highlightMode := Some hl_none;
     dotEmphasis := None;
     showAxisGuide := None |}.

Definition step_boundary : StepData :=
  {| id := "boundary";
     title := "Focus on the boundary";
     text := "The solution: compare districts right at the boundary. Communities just inside vs. just outside were nearly identical before 1573—same geography, same climate, same Inca heritage. The only difference was which side of an administrative line they fell on.";
     morphProgress := 0;
     outcome := Stunting;
     showDistricts := true;
     scatterPhase := Dots;
     zoomLevel := mitaZoom;
     highlightMode := Some hl_boundary;
     dotEmphasis := None;
     showAxisGuide := None |}.

Definition step_transform : StepData :=
  {| id := "transform";
     title := "From map to data";
     text := "Watch as each district transforms into a data point. Geographic location gives way to a new axis: distance from the mita boundary. Districts that were neighbors on the map now separate based on their proximity to the colonial divide.";
     morphProgress := 1;
     outcome := Stunting;
     showDistricts := true;
     scatterPhase := Dots;
     zoomLevel := mitaZoom;
     highlightMode := None;
     dotEmphasis := Some em_normal;
     showAxisGuide := None |}.

Definition step_rdd_intro : StepData :=
  {| id := "rdd-intro";
     title := "Plotting the data";
     text := "Each dot represents a district. The x-axis shows distance from the mita boundary, with mita districts on the right (dark) and non-mita districts on the left (gray). The y-axis shows child stunting rates.";
     morphProgress := 1;
     outcome := Stunting;
     showDistricts := true;
     scatterPhase := Dots;
     zoomLevel := mitaZoom;
     highlightMode := None;
     dotEmphasis := Some em_pulse;
     showAxisGuide := Some true |}.

Definition step_rdd_ols : StepData :=
  {| id := "rdd-ols";
     title := "Finding the trend";
     text := "We fit separate regression lines on each side of the boundary. These illustrative lines show the average relationship between distance and stunting within each region. (The paper uses richer polynomial specifications with geographic controls.)";
     morphProgress := 1;
     outcome := Stunting;
     showDistricts := true;
     scatterPhase := Ols;
     zoomLevel := mitaZoom;
     highlightMode := None;
     dotEmphasis := None;
     showAxisGuide := None |}.

Definition step_naive_effect : StepData :=
  {| id := "naive-effect";
     title := "A misleading result";
     text := "Our simple regression suggests mita districts have less stunting—the opposite of what we'd expect from forced labor! This counterintuitive result shows why we can't trust naive comparisons. Geography, elevation, and other factors confound the relationship.";
     morphProgress := 1;
     outcome := Stunting;
     showDistricts := true;
     scatterPhase := NaiveEffect;
     zoomLevel := mitaZoom;
     highlightMode := None;
     dotEmphasis := None;
     showAxisGuide := None |}.

Definition step_stunting : StepData :=
  {| id := "stunting";
     title := "The controlled estimate";
     text := "Dell's paper uses polynomial RD with controls for elevation, slope, and other geographic factors. The refined estimate: 6 percentage points higher stunting in mita districts—about 15% above the baseline rate. Colonial exploitation continues to harm children generations later.";
     morphProgress := 1;
     outcome := Stunting;
     showDistricts := true;
     scatterPhase := Effect;
     zoomLevel := mitaZoom;
     highlightMode := None;
     dotEmphasis := None;
     showAxisGuide := None |}.

Definition step_consumption : StepData :=
  {| id := "consumption";
     title := "Finding #2: Lower consumption";
     text := "The same pattern appears for household consumption. Mita districts have about 22% lower consumption today—a coefficient of -0.25 log points. The persistent poverty reflects centuries of institutional disadvantage.";
     morphProgress := 1;
     outcome := Consumption;
     showDistricts := true;
     scatterPhase := Effect;
     zoomLevel := mitaZoom;
     highlightMode := None;
     dotEmphasis := None;
     showAxisGuide := None |}.

Definition step_roads : StepData :=
  {| id := "roads";
     title := "Finding #3: Less infrastructure";
     text := "Mita districts have 36 fewer meters of road per km²—about a third less than the non-mita average of 108 m/km². Dell traces this to land tenure: without the labor draft, large haciendas formed and invested in roads to attract workers and transport goods.";
     morphProgress := 1;
     outcome := Roads;
     showDistricts := true;
     scatterPhase := Effect;
     zoomLevel := mitaZoom;
     highlightMode := None;
     dotEmphasis := None;
     showAxisGuide := None |}.

Definition step_mechanism : StepData :=
  {| id := "mechanism";
     title := "Why do effects persist?";
     text := "Dell explores several mechanisms. One key channel: the mita blocked hacienda formation outside the catchment area, where large landowners invested in roads and public goods to attract workers. These institutional differences compounded over centuries, producing the disparities we observe today.";
     morphProgress := 1;
     outcome := Roads;
     showDistricts := true;
     scatterPhase := Effect;
     zoomLevel := mitaZoom;
     highlightMode := None;
     dotEmphasis := Some em_dimmed;
     showAxisGuide := None |}.

Definition mainSteps : list StepData :=
  [step_context;
   step_research_question;
   step_naive_comparison;
   step_boundary;
   step_transform;
   step_rdd_intro;
   step_rdd_ols;
   step_naive_effect;
   step_stunting;
   step_consumption;
   step_roads;
   step_mechanism].

(** [array.findIndex(f)]: the first index whose element satisfies [f], or
    [-1]. *)
Fixpoint findIndexFrom {A : Type} (f : A -> bool) (l : list A) (i : Z) : Z :=
  match l with
  | [] => (-1)%Z
  | x :: rest => if f x then i else findIndexFrom f rest (i + 1)%Z
  end.

Definition findIndex {A : Type} (f : A -> bool) (l : list A) : Z :=
  findIndexFrom f l 0%Z.

(** [mainSteps[i]] *)
Definition stepAt (i : Z) : option StepData :=
  if (i <? 0)%Z then None else nth_error mainSteps (Z.to_nat i).

(** [mainSteps[currentStepIndex] || mainSteps[0]] *)
Definition currentStep (currentStepIndex : Z) : option StepData :=
  match stepAt currentStepIndex with
  | Some s => Some s
  | None => stepAt 0%Z
  end.

(** The index the component holds after [onStepEnter({ data })]. *)
Definition onStepEnter (data : StepData) (currentStepIndex : Z) : Z :=
  let idx := findIndex (fun s => String.eqb (id s) (id data)) mainSteps in
  if (0 <=? idx)%Z then idx else currentStepIndex.

(** A property of every pair of consecutive elements of a list. *)
Fixpoint consecutive {A : Type} (P : A -> A -> bool) (l : list A) : bool :=
  match l with
  | a :: (b :: _) as rest => P a b && consecutive P rest
  | _ => true
  end.

End ScrollyStory.

(** ** colors.ts: helpers *)

Module colorUtils.

(** The value of a hexadecimal digit: [\d], [a-f] and, by the [i] flag of
    the pattern, [A-F]. *)
Definition hexValue (c : Ascii.ascii) : option N :=
  let n := Ascii.N_of_ascii c in
  if (48 <=? n)%N && (n <=? 57)%N then Some (n - 48)%N
  else if (97 <=? n)%N && (n <=? 102)%N then Some (n - 87)%N
  else if (65 <=? n)%N && (n <=? 70)%N then Some (n - 55)%N
  else None.

(** [parseInt(pair, 16)] for a pair of characters the pattern matched. *)
Definition parseHexPair (a b : Ascii.ascii) : option N :=
  match hexValue a, hexValue b with
  | Some x, Some y => Some (16 * x + y)%N
  | _, _ => None
  end.

(** The three groups of [/^#?([a-f\d]{2})([a-f\d]{2})([a-f\d]{2})$/i],
    parsed, or [None] when the pattern does not match. *)
Definition hexMatch (hex : string) : option (N * N * N) :=
  let body := match hex with
              | String "#"%char rest => rest
              | _ => hex
              end in
  match body with
  | String a (String b (String c (String d (String e (String f EmptyString))))) =>
      match parseHexPair a b, parseHexPair c d, parseHexPair e f with
      | Some r, Some g, Some bl => Some (r, g, bl)
      | _, _, _ => None
      end
  | _ => None
  end.

Definition decimal (n : N) : string :=
  DecimalString.NilEmpty.string_of_uint (N.to_uint n).

Definition hexToRgb (hex : string) : string :=
  match hexMatch hex with
  | None => "0, 0, 0"
  | Some (r, g, b) =>
      String.append (decimal r)
        (String.append ", "
           (String.append (decimal g) (String.append ", " (decimal b))))
  end.

(** The capital of an ASCII letter [a]-[z], any other character as it is,
    and a string with its ASCII letters capitalised: what the [i] flag of
    the pattern makes the match insensitive to.  This is not
    [String.prototype.toUpperCase], which also maps characters outside
    ASCII (some of them to ASCII letters). *)
Definition capitalAscii (c : Ascii.ascii) : Ascii.ascii :=
  let n := Ascii.N_of_ascii c in
  if (97 <=? n)%N && (n <=? 122)%N then Ascii.ascii_of_N (n - 32)%N else c.

Fixpoint capitalsAscii (s : string) : string :=
  match s with
  | EmptyString => EmptyString
  | String c rest => String (capitalAscii c) (capitalsAscii rest)
  end.

Inductive Variant : Type := VFill | VStroke.

Definition getMitaColor (isInside : bool) (variant : Variant) : string :=
  if isInside then
    match variant with VFill => colors.mita | VStroke => colors.mitaStroke end
  else
    match variant with VFill => colors.nonmitaLight | VStroke => colors.nonmita end.

End colorUtils.

(** Every element of a scene: the primitives under the svg root and the
    children of its groups. *)
Definition sceneElements (s : Scene) : list Element :=
  flat_map (fun n => match n with
                     | Prim e => [e]
                     | MainGroup _ children => children
                     end) s.

(** The classes of the map polygons and of the morphing polygons. *)
Definition isPolygonClass (c : Class) : bool :=
  existsb (Class_eqb c)
          [morphing_district; fading_district; district; district_bg].

(** * Properties *)

Module MathFacts.
Import Math.

Lemma ltb_lt x y : ltb x y = true <-> x < y.
Proof.
  unfold ltb. rewrite negb_true_iff. split; intros H.
  - apply Qnot_le_lt. intros L. apply Qle_bool_iff in L. congruence.
  - destruct (Qle_bool y x) eqn:E; [|reflexivity].
    apply Qle_bool_iff in E. lra.
Qed.

Lemma ltb_ge x y : ltb x y = false <-> y <= x.
Proof.
  unfold ltb. rewrite negb_false_iff. apply Qle_bool_iff.
Qed.

Lemma leb_le x y : leb x y = true <-> x <= y.
Proof. apply Qle_bool_iff. Qed.

Lemma leb_gt x y : leb x y = false <-> y < x.
Proof.
  unfold leb. split; intros H.
  - apply Qnot_le_lt. intros L. apply Qle_bool_iff in L. congruence.
  - destruct (Qle_bool x y) eqn:E; [|reflexivity].
    apply Qle_bool_iff in E. lra.
Qed.

Lemma geb_ge x y : geb x y = true <-> y <= x.
Proof. apply Qle_bool_iff. Qed.

Lemma min_spec a b : (a <= b /\ min a b = a) \/ (b < a /\ min a b = b).
Proof.
  unfold min. destruct (Qle_bool a b) eqn:E.
  - left. split; [now apply Qle_bool_iff|reflexivity].
  - right. split; [now apply leb_gt|reflexivity].
Qed.

Lemma max_spec a b : (a <= b /\ max a b = b) \/ (b < a /\ max a b = a).
Proof.
  unfold max. destruct (Qle_bool a b) eqn:E.
  - left. split; [now apply Qle_bool_iff|reflexivity].
  - right. split; [now apply leb_gt|reflexivity].
Qed.

Lemma clampTo_bounds lo hi x : lo <= hi -> lo <= clampTo lo hi x <= hi.
Proof.
  intros H. unfold clampTo.
  destruct (min_spec hi x) as [[? ->]|[? ->]];
    [destruct (max_spec lo hi) as [[? ->]|[? ->]]
    |destruct (max_spec lo x) as [[? ->]|[? ->]]]; lra.
Qed.

Lemma clampTo_inside lo hi x : lo <= x <= hi -> clampTo lo hi x == x.
Proof.
  intros H. unfold clampTo.
  destruct (min_spec hi x) as [[? ->]|[? ->]];
    [destruct (max_spec lo hi) as [[? ->]|[? ->]]
    |destruct (max_spec lo x) as [[? ->]|[? ->]]]; lra.
Qed.

Lemma clampTo_below lo hi x : lo <= hi -> x <= lo -> clampTo lo hi x == lo.
Proof.
  intros H L. unfold clampTo.
  destruct (min_spec hi x) as [[? ->]|[? ->]];
    [destruct (max_spec lo hi) as [[? ->]|[? ->]]
    |destruct (max_spec lo x) as [[? ->]|[? ->]]]; lra.
Qed.

Lemma clampTo_above lo hi x : lo <= hi -> hi <= x -> clampTo lo hi x == hi.
Proof.
  intros H L. unfold clampTo.
  destruct (min_spec hi x) as [[? ->]|[? ->]];
    [destruct (max_spec lo hi) as [[? ->]|[? ->]]
    |destruct (max_spec lo x) as [[? ->]|[? ->]]]; lra.
Qed.

End MathFacts.

Lemma distanceScale_eq innerWidth x :
  distanceScale innerWidth x ==
  (Math.clampTo (-(50)) 50 x + 50) / 100 * innerWidth.
Proof.
  unfold distanceScale, scale_apply, createXScale, scale_normalize. simpl.
  change (Math.min (-(50)) 50) with (-(50)).
  change (Math.max (-(50)) 50) with 50.
  change (Qeq_bool 50 (-(50))) with false. cbv iota.
  field.
Qed.

(** C2. For every input [x] the distance scale built by
    [createXScale innerWidth] lands in [[0, innerWidth]]: inputs below the
    domain [-50, 50] go to [0], inputs above it go to [innerWidth]; and
    [-50], [0], [50] are sent to [0], [innerWidth / 2], [innerWidth]. *)
Theorem distanceScale_clamped (innerWidth : Q) (Hw : 0 <= innerWidth) :
  (forall x, 0 <= distanceScale innerWidth x <= innerWidth) /\
  (forall x, x <= -(50) -> distanceScale innerWidth x == 0) /\
  (forall x, 50 <= x -> distanceScale innerWidth x == innerWidth) /\
  distanceScale innerWidth (-(50)) == 0 /\
  distanceScale innerWidth 0 == innerWidth / 2 /\
  distanceScale innerWidth 50 == innerWidth.
Proof.
  assert (B : forall x, 0 <= distanceScale innerWidth x <= innerWidth).
  { intros x. rewrite distanceScale_eq.
    pose proof (MathFacts.clampTo_bounds (-(50)) 50 x ltac:(lra)) as [L U].
    set (c := Math.clampTo (-(50)) 50 x) in *.
    split.
    - assert (E : (c + 50) / 100 * innerWidth == (c + 50) * innerWidth * (1 # 100))
        by field.
      rewrite E. assert (0 <= (c + 50) * innerWidth) by (apply Qmult_le_0_compat; lra).
      lra.
    - assert (E : innerWidth - (c + 50) / 100 * innerWidth
                  == (50 - c) * innerWidth * (1 # 100)) by field.
      assert (0 <= (50 - c) * innerWidth) by (apply Qmult_le_0_compat; lra).
      lra. }
  assert (Lo : forall x, x <= -(50) -> distanceScale innerWidth x == 0).
  { intros x Hx. rewrite distanceScale_eq.
    rewrite (MathFacts.clampTo_below (-(50)) 50 x) by lra. field. }
  assert (Hi : forall x, 50 <= x -> distanceScale innerWidth x == innerWidth).
  { intros x Hx. rewrite distanceScale_eq.
    rewrite (MathFacts.clampTo_above (-(50)) 50 x) by lra. field. }
  repeat split; try apply B; auto.
  - apply Lo. lra.
  - rewrite distanceScale_eq.
    rewrite (MathFacts.clampTo_inside (-(50)) 50 0) by lra. field.
  - apply Hi. lra.
Qed.

Lemma distanceScale_clamped_witness :
  0 <= 610 /\
  distanceScale 610 (-(60)) == 0 /\ distanceScale 610 60 == 610 /\
  distanceScale 610 0 == 305.
Proof.
  split; [lra|].
  pose proof (distanceScale_clamped 610 ltac:(lra)) as (_ & Lo & Hi & _ & Mid & _).
  split; [apply Lo; lra|]. split; [apply Hi; lra|].
  rewrite Mid. reflexivity.
Defined.

(** The inside flag of a merged record: the one of its outcome record when
    that carries one, otherwise whether the polygon is a mita polygon. *)
Lemma mergeOne_isInside polygonCentroid (outcomeMap : gmap Z DistrictData) poly :
  isInside (mergeOne polygonCentroid outcomeMap poly)
  = match outcomeMap !! dp_ubigeo poly with
    | Some outcome =>
        match dd_isInside outcome with
        | Some b => b
        | None => Z.eqb (dp_mita poly) 1
        end
    | None => Z.eqb (dp_mita poly) 1
    end.
Proof.
  unfold mergeOne. simpl.
  destruct (outcomeMap !! dp_ubigeo poly) as [outcome|]; simpl; [|reflexivity].
  destruct (dd_isInside outcome); reflexivity.
Qed.

Lemma scatterValid_qualifies o d : scatterValid o d = true <-> qualifies o d.
Proof.
  unfold scatterValid, qualifies.
  destruct (distance d) as [dist|]; [|split; [discriminate|intros [H _]; congruence]].
  destruct (outcomeValue o d) as [v|].
  - rewrite MathFacts.geb_ge. split.
    + intros H. split; [discriminate|]. exists v. split; [reflexivity|].
      destruct o; exact H.
    + intros (_ & v' & E & H). injection E as <-. destruct o; exact H.
  - split; [discriminate|]. intros (_ & v' & E & _). discriminate.
Qed.

Lemma scatterPoint_inj o d d' : scatterPoint o d = scatterPoint o d' -> d = d'.
Proof. intros H. exact (f_equal base H). Qed.

(** C8. A district appears in [filterScatterData data o] exactly when it is
    in [data], its distance is present, its value for [o] is present and
    the value passes the zero rule of [o]: for roads the value 0 qualifies,
    for stunting and consumption the value must reach 0.001, so that 0
    excludes the district. *)
Theorem filterScatterData_membership :
  (forall data o d,
      In (scatterPoint o d) (filterScatterData data o) <->
      In d data /\ qualifies o d) /\
  zeroRule Roads 0 /\ ~ zeroRule Stunting 0 /\ ~ zeroRule Consumption 0 /\
  (forall o, o <> Roads -> 0 < minValue o).
Proof.
  split; [|repeat split].
  - intros data o d. unfold filterScatterData.
    rewrite in_map_iff. split.
    + intros (d' & E & H). apply scatterPoint_inj in E. subst d'.
      apply filter_In in H. destruct H as [H V].
      split; [exact H|]. now apply scatterValid_qualifies.
    + intros [H V]. exists d. split; [reflexivity|].
      apply filter_In. split; [exact H|]. now apply scatterValid_qualifies.
  - unfold zeroRule. lra.
  - unfold zeroRule. lra.
  - unfold zeroRule. lra.
  - intros o H. destruct o; [reflexivity|reflexivity|congruence].
Qed.

(** C3. In either derived scatter set, [scatterX] is [abs distance] for a
    district inside the treatment boundary and [- abs distance] otherwise;
    so it is non-negative inside and non-positive outside. *)
Theorem scatterX_sign (data : list MergedDistrictData) (o : OutcomeType)
    (p : ScatterDataPoint)
    (Hp : In p (filterScatterData data o) \/ In p (getAllScatterData data)) :
  exists dist,
    distance (base p) = Some dist /\
    (isInside (base p) = true ->
       scatterX p = Math.abs dist /\ 0 <= scatterX p) /\
    (isInside (base p) = false ->
       scatterX p = - Math.abs dist /\ scatterX p <= 0).
Proof.
  assert (G : (exists d, p = scatterPoint o d \/ p = allScatterPoint d)
              /\ distance (base p) <> None).
  { destruct Hp as [Hp|Hp].
    - apply in_map_iff in Hp. destruct Hp as (d & <- & H).
      apply filter_In in H. destruct H as [_ V].
      split; [exists d; now left|]. simpl.
      unfold scatterValid in V. destruct (distance d); [discriminate|discriminate V].
    - apply in_map_iff in Hp. destruct Hp as (d & <- & H).
      apply filter_In in H. destruct H as [_ V].
      split; [exists d; now right|]. simpl.
      unfold anyOutcomeValid in V. destruct (distance d); [discriminate|discriminate V]. }
  destruct G as [[d Hd] Hn].
  destruct (distance (base p)) as [dist|] eqn:E; [|congruence].
  exists dist. split; [reflexivity|].
  assert (X : scatterX p = flippedDistance (base p)) by (destruct Hd; subst p; reflexivity).
  rewrite X. unfold flippedDistance. rewrite E. simpl.
  pose proof (Qabs_nonneg dist). unfold Math.abs.
  split; intros ->; (split; [reflexivity|lra]).
Qed.

Lemma scatterX_sign_witness :
  let d7 := mkMerged 7 1 [] 0 0 (Some 25) true None (Some (12 # 100)) None in
  let d9 := mkMerged 9 0 [] 0 0 (Some (-(40))) false None (Some (30 # 100)) None in
  (exists dist, distance d7 = Some dist /\
     (isInside d7 = true ->
        scatterX (scatterPoint Stunting d7) = Math.abs dist /\
        0 <= scatterX (scatterPoint Stunting d7)) /\
     (isInside d7 = false ->
        scatterX (scatterPoint Stunting d7) = - Math.abs dist /\
        scatterX (scatterPoint Stunting d7) <= 0)) /\
  scatterX (scatterPoint Stunting d9) == -(40).
Proof.
  intros d7 d9. split; [|reflexivity].
  apply (scatterX_sign [d7; d9] Stunting (scatterPoint Stunting d7)).
  left. simpl. left. reflexivity.
Defined.

Module NumFacts.
Import Num.

Lemma min_below acc x : below (min acc x) x.
Proof.
  destruct acc as [|a|]; simpl; try lra; auto.
  destruct (MathFacts.min_spec a x) as [[? ->]|[? ->]]; lra.
Qed.

Lemma min_below_mono acc x y : below acc y -> below (min acc x) y.
Proof.
  destruct acc as [|a|]; simpl; auto; [|tauto].
  destruct (MathFacts.min_spec a x) as [[? ->]|[? ->]]; lra.
Qed.

Lemma max_above acc x : above (max acc x) x.
Proof.
  destruct acc as [|a|]; simpl; try lra; auto.
  destruct (MathFacts.max_spec a x) as [[? ->]|[? ->]]; lra.
Qed.

Lemma max_above_mono acc x y : above acc y -> above (max acc x) y.
Proof.
  destruct acc as [|a|]; simpl; auto; [tauto|].
  destruct (MathFacts.max_spec a x) as [[? ->]|[? ->]]; lra.
Qed.

Lemma ltb_separates a b t x y :
  above a x -> below b y -> ltb (add a t) b = true -> x + t < y.
Proof.
  destruct a as [|m|], b as [|n|]; simpl; try tauto; try discriminate.
  intros Ha Hb H. apply MathFacts.ltb_lt in H. lra.
Qed.

End NumFacts.

(** *** [polygonsShareEdge] and [computeBoundaryDistricts] *)

Lemma getBBox_covers poly v : In v poly -> covers (getBBox poly) v.
Proof.
  unfold getBBox.
  set (bb0 := {| minLat := Infinity; maxLat := NegInfinity;
                 minLon := Infinity; maxLon := NegInfinity |}).
  intros H. assert (G : In v poly \/ covers bb0 v) by now left.
  clear H. revert G. generalize bb0. clear bb0.
  induction poly as [|[lat lon] poly IH]; intros bb [H|H]; simpl.
  - destruct H.
  - exact H.
  - destruct H as [<-|H].
    + apply IH. right. unfold covers. simpl.
      repeat split; auto using NumFacts.min_below, NumFacts.max_above.
    + apply IH. now left.
  - apply IH. right. destruct H as (H1 & H2 & H3 & H4). unfold covers. simpl.
    repeat split;
      auto using NumFacts.min_below_mono, NumFacts.max_above_mono.
Qed.

Lemma verticesMatch_close v1 v2 :
  verticesMatch v1 v2 = true ->
  - VERTEX_TOLERANCE < fst v1 - fst v2 < VERTEX_TOLERANCE /\
  - VERTEX_TOLERANCE < snd v1 - snd v2 < VERTEX_TOLERANCE.
Proof.
  unfold verticesMatch. rewrite andb_true_iff, !MathFacts.ltb_lt.
  unfold Math.abs. intros [H1 H2].
  apply Qabs_Qlt_condition in H1. apply Qabs_Qlt_condition in H2. tauto.
Qed.

Lemma bboxDisjoint_no_match poly1 poly2 v1 v2 :
  bboxDisjoint (getBBox poly1) (getBBox poly2) = true ->
  In v1 poly1 -> In v2 poly2 -> verticesMatch v1 v2 = false.
Proof.
  intros D H1 H2.
  destruct (verticesMatch v1 v2) eqn:M; [exfalso|reflexivity].
  apply verticesMatch_close in M. unfold VERTEX_TOLERANCE in M.
  destruct (getBBox_covers _ _ H1) as (A1 & A2 & A3 & A4).
  destruct (getBBox_covers _ _ H2) as (B1 & B2 & B3 & B4).
  unfold bboxDisjoint in D. rewrite !orb_true_iff in D.
  destruct D as [[[D|D]|D]|D].
  - pose proof (NumFacts.ltb_separates _ _ _ _ _ A2 B1 D) as L.
    unfold VERTEX_TOLERANCE in L. lra.
  - pose proof (NumFacts.ltb_separates _ _ _ _ _ B2 A1 D) as L.
    unfold VERTEX_TOLERANCE in L. lra.
  - pose proof (NumFacts.ltb_separates _ _ _ _ _ A4 B3 D) as L.
    unfold VERTEX_TOLERANCE in L. lra.
  - pose proof (NumFacts.ltb_separates _ _ _ _ _ B4 A3 D) as L.
    unfold VERTEX_TOLERANCE in L. lra.
Qed.

Lemma matchesOf_none v1 poly2 :
  (forall v2, In v2 poly2 -> verticesMatch v1 v2 = false) ->
  matchesOf v1 poly2 = 0%nat.
Proof.
  unfold matchesOf. induction poly2 as [|v2 poly2 IH]; intros H; simpl.
  - reflexivity.
  - rewrite (H v2) by now left. apply IH. intros v Hv. apply H. now right.
Qed.

Lemma matchingPairs_none poly1 poly2 :
  (forall v1 v2, In v1 poly1 -> In v2 poly2 -> verticesMatch v1 v2 = false) ->
  matchingPairs poly1 poly2 = 0%nat.
Proof.
  unfold matchingPairs. induction poly1 as [|v1 poly1 IH]; intros H; simpl.
  - reflexivity.
  - rewrite matchesOf_none by (intros v2 Hv; apply H; [now left|exact Hv]).
    apply IH. intros a b Ha Hb. apply H; [now right|exact Hb].
Qed.

Lemma sharedInner_spec v1 poly2 : forall c, (c < 2)%nat ->
  match sharedInner v1 poly2 c with
  | None => (2 <= c + matchesOf v1 poly2)%nat
  | Some c' => c' = (c + matchesOf v1 poly2)%nat /\ (c' < 2)%nat
  end.
Proof.
  unfold matchesOf.
  induction poly2 as [|v2 poly2 IH]; intros c Hc; simpl.
  - split; lia.
  - destruct (verticesMatch v1 v2); cbn [List.length].
    + destruct c as [|[|c]]; [| |lia].
      * specialize (IH 1%nat ltac:(lia)). cbn [Nat.leb].
        destruct (sharedInner v1 poly2 1); [destruct IH; split|]; lia.
      * cbn [Nat.leb]. lia.
    + exact (IH c Hc).
Qed.

Lemma sharedOuter_spec poly2 poly1 : forall c, (c < 2)%nat ->
  sharedOuter poly1 poly2 c = true <->
  (2 <= c + matchingPairs poly1 poly2)%nat.
Proof.
  unfold matchingPairs.
  induction poly1 as [|v1 poly1 IH]; intros c Hc; simpl.
  - split; [discriminate|lia].
  - pose proof (sharedInner_spec v1 poly2 c Hc) as S.
    destruct (sharedInner v1 poly2 c) as [c'|].
    + destruct S as [-> L]. rewrite (IH _ L). lia.
    + split; [lia|reflexivity].
Qed.

Lemma polygonsShareEdge_spec poly1 poly2 :
  polygonsShareEdge poly1 poly2 = true <->
  (2 <= matchingPairs poly1 poly2)%nat.
Proof.
  unfold polygonsShareEdge.
  destruct (bboxDisjoint (getBBox poly1) (getBBox poly2)) eqn:D.
  - rewrite matchingPairs_none
      by (intros; eapply bboxDisjoint_no_match; eauto).
    split; [discriminate|lia].
  - rewrite sharedOuter_spec by lia. reflexivity.
Qed.

Lemma boundary_inner (m : MergedDistrictData) ns : forall (acc : gset Z) u,
  u ∈ fold_left
        (fun boundaryUbigeos nonMita =>
           if polygonsShareEdge (polygon m) (polygon nonMita)
           then {[ ubigeo nonMita ]} ∪ ({[ ubigeo m ]} ∪ boundaryUbigeos)
           else boundaryUbigeos) ns acc
  <-> u ∈ acc \/
      exists n, In n ns /\ polygonsShareEdge (polygon m) (polygon n) = true /\
                (u = ubigeo m \/ u = ubigeo n).
Proof.
  induction ns as [|n ns IH]; intros acc u; simpl.
  - split; [now left|]. intros [H|(n & [] & _)]. exact H.
  - rewrite IH. destruct (polygonsShareEdge (polygon m) (polygon n)) eqn:E.
    + rewrite !elem_of_union, !elem_of_singleton. split.
      * intros [[->|[->|H]]|(n' & Hn & S & Hu)].
        -- right. exists n. auto.
        -- right. exists n. auto.
        -- now left.
        -- right. exists n'. auto.
      * intros [H|(n' & [<-|Hn] & S & Hu)].
        -- left. auto.
        -- left. destruct Hu as [->| ->]; auto.
        -- right. exists n'. auto.
    + split.
      * intros [H|(n' & Hn & S & Hu)]; [now left|].
        right. exists n'. auto.
      * intros [H|(n' & [<-|Hn] & S & Hu)]; [now left|congruence|].
        right. exists n'. auto.
Qed.

Lemma boundary_outer ns ms : forall (acc : gset Z) u,
  u ∈ fold_left
        (fun boundaryUbigeos m =>
           fold_left
             (fun boundaryUbigeos nonMita =>
                if polygonsShareEdge (polygon m) (polygon nonMita)
                then {[ ubigeo nonMita ]} ∪ ({[ ubigeo m ]} ∪ boundaryUbigeos)
                else boundaryUbigeos) ns boundaryUbigeos) ms acc
  <-> u ∈ acc \/
      exists m n, In m ms /\ In n ns /\
                  polygonsShareEdge (polygon m) (polygon n) = true /\
                  (u = ubigeo m \/ u = ubigeo n).
Proof.
  induction ms as [|m ms IH]; intros acc u; simpl.
  - split; [now left|]. intros [H|(m & n & [] & _)]. exact H.
  - rewrite IH, boundary_inner. split.
    + intros [[H|(n & Hn & S & Hu)]|(m' & n & Hm & Hn & S & Hu)].
      * now left.
      * right. exists m, n. auto.
      * right. exists m', n. auto.
    + intros [H|(m' & n & [<-|Hm] & Hn & S & Hu)].
      * left. now left.
      * left. right. exists n. auto.
      * right. exists m', n. auto.
Qed.

Lemma computeBoundaryDistricts_spec data u :
  u ∈ computeBoundaryDistricts data <->
  exists m n, borders data m n /\ (u = ubigeo m \/ u = ubigeo n).
Proof.
  unfold computeBoundaryDistricts. rewrite boundary_outer. split.
  - intros [H|(m & n & Hm & Hn & S & Hu)]; [set_solver|].
    apply filter_In in Hm. apply filter_In in Hn.
    destruct Hm as [Hm Em], Hn as [Hn En].
    apply Z.eqb_eq in Em. apply Z.eqb_eq in En.
    apply polygonsShareEdge_spec in S.
    exists m, n. unfold borders. auto 10.
  - intros (m & n & (Hm & Hn & Em & En & S) & Hu). right.
    exists m, n. rewrite !filter_In, !Z.eqb_eq, polygonsShareEdge_spec.
    auto 10.
Qed.

Example boundary_scenario :
  matchingPairs (polygon Sample.squareA) (polygon Sample.squareB) = 2%nat /\
  matchingPairs (polygon Sample.corner) (polygon Sample.squareB) = 1%nat /\
  elements (computeBoundaryDistricts
              [Sample.squareA; Sample.squareB; Sample.corner]) = [2%Z; 1%Z].
Proof. vm_compute. repeat split. Qed.

(** C9. [polygonsShareEdge] holds exactly when at least two vertex pairs
    match within the tolerance (the bounding-box test rejects no such
    pair); an id is in the set computed by [computeBoundaryDistricts]
    exactly when it belongs to a mita / non-mita pair of districts with two
    such matches, and then both ids of the pair are in the set; a pair with
    fewer than two matches does not share an edge. *)
Theorem computeBoundaryDistricts_symmetric :
  (forall poly1 poly2,
      polygonsShareEdge poly1 poly2 = true <->
      (2 <= matchingPairs poly1 poly2)%nat) /\
  (forall data u,
      u ∈ computeBoundaryDistricts data <->
      exists m n, borders data m n /\ (u = ubigeo m \/ u = ubigeo n)) /\
  (forall data m n,
      borders data m n ->
      ubigeo m ∈ computeBoundaryDistricts data /\
      ubigeo n ∈ computeBoundaryDistricts data) /\
  (forall poly1 poly2,
      (matchingPairs poly1 poly2 <= 1)%nat ->
      polygonsShareEdge poly1 poly2 = false).
Proof.
  split; [exact polygonsShareEdge_spec|].
  split; [exact computeBoundaryDistricts_spec|]. split.
  - intros data m n B.
    split; apply computeBoundaryDistricts_spec; exists m, n; auto.
  - intros poly1 poly2 H.
    destruct (polygonsShareEdge poly1 poly2) eqn:E; [|reflexivity].
    apply polygonsShareEdge_spec in E. lia.
Qed.

(** *** Elements and data joins *)

Lemma Class_eqb_eq a b : Class_eqb a b = true <-> a = b.
Proof.
  split.
  - destruct a, b; simpl; try discriminate; try reflexivity.
    intros H. apply String.eqb_eq in H. now subst.
  - intros <-. destruct a; simpl; try reflexivity. apply String.eqb_refl.
Qed.

Lemma Class_eqb_refl a : Class_eqb a a = true.
Proof. now apply Class_eqb_eq. Qed.

Section JoinFacts.

Context {D : Type}.
Variable cls : Class.
Variable key : D -> Z.
Variable enter : D -> Element.
Variable update : D -> Element -> Element.
Variable exit : Element -> option Element.

(** Where an element of a keyed join comes from. *)
Lemma joinKeyed_In data children e :
  In e (joinKeyed cls key enter update exit data children) ->
  (In e children /\ el_class e <> cls) \/
  (exists d e0, In d data /\ In e0 children /\ e = update d e0) \/
  (exists e0, In e0 children /\ exit e0 = Some e) \/
  (exists d, In d data /\ e = enter d).
Proof.
  unfold joinKeyed. rewrite in_app_iff, in_flat_map, in_map_iff.
  intros [(e0 & H0 & H)|(d & <- & H)].
  - destruct (Class_eqb (el_class e0) cls) eqn:C.
    + destruct (el_key e0 ≫= _) as [d|] eqn:F.
      * destruct H as [<-|[]]. right. left. exists d, e0.
        destruct (el_key e0) as [k|]; [|discriminate]. simpl in F.
        apply find_some in F. tauto.
      * destruct (exit e0) as [e'|] eqn:X; [|destruct H].
        destruct H as [<-|[]]. right. right. left. exists e0. tauto.
    + destruct H as [<-|[]]. left. split; [exact H0|].
      intros E. apply Class_eqb_eq in E. congruence.
  - apply filter_In in H. right. right. right. exists d. tauto.
Qed.

(** Every datum has its element after a keyed join. *)
Lemma joinKeyed_covers data children d :
  In d data ->
  (forall d' e0, el_key (update d' e0) = el_key e0) ->
  (forall d', el_key (enter d') = Some (key d')) ->
  exists e, In e (joinKeyed cls key enter update exit data children) /\
            el_key e = Some (key d).
Proof.
  intros Hd Hu He. unfold joinKeyed.
  destruct (existsb (fun e => Class_eqb (el_class e) cls && hasKey (key d) e)
                    children) eqn:X.
  - apply existsb_exists in X. destruct X as (e0 & H0 & H).
    apply andb_true_iff in H. destruct H as [C K].
    unfold hasKey in K. destruct (el_key e0) as [k|] eqn:EK; [|discriminate].
    apply Z.eqb_eq in K. subst k.
    destruct (List.find (fun d' => Z.eqb (key d') (key d)) data) as [d'|] eqn:F.
    + exists (update d' e0). split; [|now rewrite Hu].
      apply in_app_iff. left. apply in_flat_map. exists e0.
      split; [exact H0|]. rewrite C, EK. simpl. rewrite F. now left.
    + exfalso. apply (find_none _ _ F) in Hd. rewrite Z.eqb_refl in Hd.
      discriminate.
  - exists (enter d). split; [|apply He].
    apply in_app_iff. right. apply in_map. apply filter_In.
    split; [exact Hd|]. now rewrite X.
Qed.

Lemma joinKeyed_Forall (P : Element -> Prop) data children :
  (forall d, P (enter d)) ->
  (forall d e, P e -> P (update d e)) ->
  (forall e e', P e -> exit e = Some e' -> P e') ->
  Forall P children ->
  Forall P (joinKeyed cls key enter update exit data children).
Proof.
  intros He Hu Hx Hc. rewrite Forall_forall in *. intros e H.
  apply joinKeyed_In in H.
  destruct H as [[H _]|[(d & e0 & _ & H0 & ->)|[(e0 & H0 & X)|(d & _ & ->)]]];
    eauto.
Qed.

Lemma joinIndexed_Forall (P : Element -> Prop) children : forall data,
  (forall d, P (enter d)) ->
  (forall d e, P e -> P (update d e)) ->
  Forall P children ->
  Forall P (joinIndexed cls enter update data children).
Proof.
  induction children as [|e rest IH]; intros data He Hu Hc; simpl.
  - apply Forall_forall. intros e H. apply in_map_iff in H.
    destruct H as (d & <- & _). apply He.
  - inversion Hc as [|? ? Pe Prest]; subst.
    destruct (Class_eqb (el_class e) cls).
    + destruct data as [|d data'].
      * now apply IH.
      * constructor; [now apply Hu|now apply IH].
    + constructor; [exact Pe|now apply IH].
Qed.

End JoinFacts.

Lemma attr_lookup_eq name v e : el_attrs (attr name v e) !! name = Some v.
Proof. unfold attr. simpl. apply lookup_insert_eq. Qed.

Lemma attr_lookup_ne name name' v e :
  name <> name' ->
  el_attrs (attr name v e) !! name' = el_attrs e !! name'.
Proof. intros H. unfold attr. simpl. now apply lookup_insert_ne. Qed.

Lemma noOwnTransform_attr name v e :
  name <> "transform" -> noOwnTransform e -> noOwnTransform (attr name v e).
Proof. intros H T. unfold noOwnTransform. now rewrite attr_lookup_ne. Qed.

Lemma noOwnTransform_new tag cls key : noOwnTransform (newElement tag cls key).
Proof. unfold noOwnTransform, newElement. simpl. apply lookup_empty. Qed.

Lemma noOwnTransform_removeClasses classes children :
  Forall noOwnTransform children ->
  Forall noOwnTransform (removeClasses classes children).
Proof.
  unfold removeClasses. rewrite !Forall_forall. intros H e He.
  apply filter_In in He. apply H. tauto.
Qed.

Lemma noOwnTransform_keepClasses classes children :
  Forall noOwnTransform children ->
  Forall noOwnTransform (keepClasses classes children).
Proof.
  unfold keepClasses. rewrite !Forall_forall. intros H e He.
  apply filter_In in He. apply H. tauto.
Qed.

Lemma noOwnTransform_style name value e :
  noOwnTransform e -> noOwnTransform (style name value e).
Proof. exact (fun H => H). Qed.

Lemma noOwnTransform_transition tr e :
  noOwnTransform e -> noOwnTransform (transition tr e).
Proof. exact (fun H => H). Qed.

Ltac no_transform :=
  repeat first
    [ assumption
    | apply noOwnTransform_new
    | apply noOwnTransform_style
    | apply noOwnTransform_transition
    | apply noOwnTransform_attr; [discriminate|] ].

Ltac keeps_alignment :=
  repeat first
    [ assumption | apply joinKeyed_Forall | apply joinIndexed_Forall | intros ];
  try no_transform.

(** *** Alignment of what the renderers put into the main group *)

Section Alignment.

Variable MORPH_TIMING : MorphTiming.
Variable OPACITY_dot : Q.
Variable DEFAULT_MARGIN : Margin.
Variable Math_sqrt : Q -> Q.
Variable Math_atan2 : Q -> Q -> Q.
Variable Math_cos : Q -> Q.
Variable Math_sin : Q -> Q.
Variable createProjection :
  list MergedDistrictData -> Q -> Q -> Q -> Projection.
Variable createYScales :
  list ScatterDataPoint -> Q -> OutcomeType -> ScaleLinear.
Variable calculateFittedLines :
  list ScatterDataPoint -> OutcomeType -> bool * bool.

Lemma renderFadingDistricts_aligned children projection data ubigeos eased :
  Forall noOwnTransform children ->
  Forall noOwnTransform
    (renderFadingDistricts children projection data ubigeos eased).
Proof. intros H. unfold renderFadingDistricts. keeps_alignment. Qed.

Lemma renderOutcomeTransition_aligned children data xScale yScale h o :
  Forall noOwnTransform children ->
  Forall noOwnTransform
    (renderOutcomeTransition OPACITY_dot children data xScale yScale h o).
Proof.
  intros H. unfold renderOutcomeTransition. keeps_alignment.
  match goal with X : Some _ = Some _ |- _ => injection X as <- end.
  no_transform.
Qed.

Lemma renderMorphingDistricts_aligned children projection data xScale yScale e :
  Forall noOwnTransform children ->
  Forall noOwnTransform
    (renderMorphingDistricts OPACITY_dot Math_sqrt Math_atan2 Math_cos Math_sin
       children projection data xScale yScale e).
Proof.
  intros H. unfold renderMorphingDistricts. keeps_alignment; discriminate.
Qed.

Lemma renderMorphingDots_aligned children projection data xScale yScale t e :
  Forall noOwnTransform children ->
  Forall noOwnTransform
    (renderMorphingDots MORPH_TIMING OPACITY_dot children projection data
       xScale yScale t e).
Proof.
  intros H. unfold renderMorphingDots.
  destruct (Math.leb t (dotFadeStart MORPH_TIMING)); [exact H|].
  keeps_alignment; discriminate.
Qed.

Lemma renderFullScatterDots_aligned children data xScale yScale :
  Forall noOwnTransform children ->
  Forall noOwnTransform
    (renderFullScatterDots OPACITY_dot children data xScale yScale).
Proof.
  intros H. unfold renderFullScatterDots. keeps_alignment; discriminate.
Qed.

Lemma renderMorph_aligned children projection xScale yScale merged data all
    ubigeos t o h isO isP :
  Forall noOwnTransform children ->
  Forall noOwnTransform
    (renderMorph MORPH_TIMING OPACITY_dot Math_sqrt Math_atan2 Math_cos Math_sin
       children projection xScale yScale merged data all ubigeos t o h isO isP).
Proof.
  intros H. unfold renderMorph.
  set (children' := if Math.ltb t 1 then _ else _).
  assert (H' : Forall noOwnTransform children').
  { subst children'. destruct (Math.ltb t 1);
      [now apply renderFadingDistricts_aligned|exact H]. }
  destruct (morphBranch t isO isP);
    auto using renderOutcomeTransition_aligned, renderFullScatterDots_aligned,
               renderMorphingDots_aligned, renderMorphingDistricts_aligned.
Qed.

Lemma renderScatterLayers_aligned children :
  Forall noOwnTransform children ->
  Forall noOwnTransform
    (renderScatterAxes (renderScatterLabels (renderScatterBackgrounds children))).
Proof.
  intros H. unfold renderScatterAxes, renderScatterLabels,
    renderScatterBackgrounds.
  repeat (apply Forall_app; split); auto;
    repeat constructor; apply noOwnTransform_new.
Qed.

Lemma renderMap_aligned children data :
  Forall noOwnTransform children ->
  Forall noOwnTransform (renderMap children data).
Proof. intros H. unfold renderMap. keeps_alignment; discriminate. Qed.

Lemma aligned_cases margin s :
  aligned margin s <->
  s = [] \/
  exists children,
    s = [MainGroup (Some (m_left margin, m_top margin)) children] /\
    Forall noOwnTransform children.
Proof.
  unfold aligned. split.
  - intros [L F]. destruct s as [|n [|n' s]]; simpl in L; [now left| |lia].
    right. inversion F as [|? ? Hn _]; subst.
    destruct n as [e|tr children]; [destruct Hn|].
    destruct Hn as [-> Hc]. eauto.
  - intros [->|(children & -> & Hc)]; simpl.
    + split; [lia|constructor].
    + split; [lia|]. repeat constructor. exact Hc.
Qed.

Lemma renderFittedLines_aligned margin s inside outside phase :
  aligned margin s ->
  aligned margin (renderFittedLines s inside outside phase margin).
Proof.
  intros H. apply aligned_cases in H. apply aligned_cases.
  destruct H as [->|(children & -> & Hc)]; [now left|right].
  unfold renderFittedLines. simpl. eexists. split; [reflexivity|].
  keeps_alignment.
Qed.

(** One run of the effect leaves exactly the main group under the svg
    root, whatever was there before, provided that was aligned. *)
Lemma renderEffect_aligned fr st :
  aligned DEFAULT_MARGIN (svg st) ->
  exists children,
    svg (renderEffect MORPH_TIMING OPACITY_dot DEFAULT_MARGIN Math_sqrt
           Math_atan2 Math_cos Math_sin createProjection createYScales
           calculateFittedLines fr st)
    = [MainGroup (Some (m_left DEFAULT_MARGIN, m_top DEFAULT_MARGIN)) children]
    /\ Forall noOwnTransform children.
Proof.
  intros H. unfold renderEffect. simpl.
  set (s1 := if _ : bool then clearPreserving (svg st) else []).
  assert (H1 : aligned DEFAULT_MARGIN s1).
  { subst s1. destruct (_ || _); [|apply aligned_cases; now left].
    apply aligned_cases in H. apply aligned_cases.
    destruct H as [->|(children & -> & Hc)]; [now left|right].
    simpl. eexists. split; [reflexivity|].
    now apply noOwnTransform_keepClasses. }
  clearbody s1. apply aligned_cases in H1.
  assert (H2 : exists children,
             getOrCreateMainGroup DEFAULT_MARGIN s1
             = [MainGroup (Some (m_left DEFAULT_MARGIN, m_top DEFAULT_MARGIN))
                          children]
             /\ Forall noOwnTransform children).
  { destruct H1 as [->|(children & -> & Hc)]; unfold getOrCreateMainGroup; simpl.
    - eexists. split; [reflexivity|constructor].
    - eexists. split; [reflexivity|]. now apply noOwnTransform_removeClasses. }
  destruct H2 as (c2 & -> & Hc2). cbn [overMainGroup].
  pose proof (renderScatterLayers_aligned c2 Hc2) as Hc3.
  set (c3 := renderScatterAxes _) in *. clearbody c3.
  set (s4 := if Math.ltb (currentProgress fr) (3 # 10) then _ else _).
  assert (H4 : exists children,
             s4 = [MainGroup (Some (m_left DEFAULT_MARGIN, m_top DEFAULT_MARGIN))
                             children]
             /\ Forall noOwnTransform children).
  { subst s4. destruct (Math.ltb (currentProgress fr) (3 # 10));
      cbn [overMainGroup]; eexists; (split; [reflexivity|]).
    - now apply renderMap_aligned.
    - now apply renderMorph_aligned. }
  clearbody s4. destruct H4 as (c4 & -> & Hc4).
  destruct (Math.geb (currentProgress fr) 1); [|eauto].
  assert (A : aligned DEFAULT_MARGIN
                [MainGroup (Some (m_left DEFAULT_MARGIN, m_top DEFAULT_MARGIN)) c4])
    by (apply aligned_cases; eauto).
  eapply renderFittedLines_aligned in A. apply aligned_cases in A.
  destruct A as [A|A]; [|exact A].
  unfold renderFittedLines in A. discriminate A.
Qed.

Lemma runFrames_aligned frames : forall st,
  aligned DEFAULT_MARGIN (svg st) ->
  aligned DEFAULT_MARGIN
    (svg (runFrames MORPH_TIMING OPACITY_dot DEFAULT_MARGIN Math_sqrt
            Math_atan2 Math_cos Math_sin createProjection createYScales
            calculateFittedLines frames st)).
Proof.
  unfold runFrames.
  induction frames as [|fr frames IH]; intros st H; simpl; [exact H|].
  apply IH. apply aligned_cases. right. now apply renderEffect_aligned.
Qed.

Lemma runFrames_snoc front fr st :
  runFrames MORPH_TIMING OPACITY_dot DEFAULT_MARGIN Math_sqrt Math_atan2
    Math_cos Math_sin createProjection createYScales calculateFittedLines
    (front ++ [fr]) st
  = renderEffect MORPH_TIMING OPACITY_dot DEFAULT_MARGIN Math_sqrt Math_atan2
      Math_cos Math_sin createProjection createYScales calculateFittedLines fr
      (runFrames MORPH_TIMING OPACITY_dot DEFAULT_MARGIN Math_sqrt Math_atan2
         Math_cos Math_sin createProjection createYScales calculateFittedLines
         front st).
Proof. unfold runFrames. now rewrite fold_left_app. Qed.

Lemma runFrames_main_group frames st :
  frames <> [] ->
  aligned DEFAULT_MARGIN (svg st) ->
  exists children,
    svg (runFrames MORPH_TIMING OPACITY_dot DEFAULT_MARGIN Math_sqrt
           Math_atan2 Math_cos Math_sin createProjection createYScales
           calculateFittedLines frames st)
    = [MainGroup (Some (m_left DEFAULT_MARGIN, m_top DEFAULT_MARGIN)) children]
    /\ Forall noOwnTransform children.
Proof.
  intros Hne H.
  destruct (@exists_last _ frames Hne) as (front & fr & ->).
  rewrite runFrames_snoc. apply renderEffect_aligned.
  now apply runFrames_aligned.
Qed.

End Alignment.

(** C1. After any sequence of frames from mount, through whichever render
    paths they take, everything under the svg root sits in the one
    ['.main-group'] group, which carries the margin translate; no element
    in the group has a transform of its own, and no marker or fitted-line
    element is a child of the svg root. *)
Theorem main_group_alignment
    (MORPH_TIMING : MorphTiming) (OPACITY_dot : Q) (DEFAULT_MARGIN : Margin)
    (Math_sqrt : Q -> Q) (Math_atan2 : Q -> Q -> Q) (Math_cos Math_sin : Q -> Q)
    (createProjection : list MergedDistrictData -> Q -> Q -> Q -> Projection)
    (createYScales : list ScatterDataPoint -> Q -> OutcomeType -> ScaleLinear)
    (calculateFittedLines : list ScatterDataPoint -> OutcomeType -> bool * bool)
    (frames : list Frame) (outcome : OutcomeType) (phase : ScatterPhase) :
  let scene :=
    svg (runFrames MORPH_TIMING OPACITY_dot DEFAULT_MARGIN Math_sqrt Math_atan2
           Math_cos Math_sin createProjection createYScales calculateFittedLines
           frames (mountState outcome phase)) in
  aligned DEFAULT_MARGIN scene /\
  (forall e, In (Prim e) scene -> markerOrLine (el_class e) = false) /\
  (frames <> [] ->
   exists children,
     scene = [MainGroup (Some (m_left DEFAULT_MARGIN, m_top DEFAULT_MARGIN))
                        children] /\
     Forall noOwnTransform children).
Proof.
  intros scene.
  assert (A : aligned DEFAULT_MARGIN scene).
  { apply runFrames_aligned. apply aligned_cases. now left. }
  split; [exact A|]. split.
  - intros e He. destruct A as [_ F]. rewrite Forall_forall in F.
    destruct (F _ He).
  - intros Hne. apply runFrames_main_group; [exact Hne|].
    apply aligned_cases. now left.
Qed.

(** *** The sub-progress and the easing *)

Lemma sub_progress_ge1 s e t : s < e -> (1 <= (t - s) / (e - s) <-> e <= t).
Proof.
  intros H. split; intros L.
  - destruct (Qlt_le_dec t e) as [C|C]; [exfalso|exact C].
    assert (X : (t - s) / (e - s) < 1)
      by (apply Qlt_shift_div_r; lra).
    lra.
  - apply Qle_shift_div_l; lra.
Qed.


Lemma easeInOutQuad_0 : easeInOutQuad 0 == 0.
Proof. reflexivity. Qed.

Lemma easeInOutQuad_1 : easeInOutQuad 1 == 1.
Proof. reflexivity. Qed.

Lemma easeInOutQuad_unit t : 0 <= t <= 1 -> 0 <= easeInOutQuad t <= 1.
Proof.
  intros [L U]. unfold easeInOutQuad.
  destruct (Math.ltb t (1 # 2)) eqn:E.
  - apply MathFacts.ltb_lt in E.
    assert (0 <= t * t) by (apply Qmult_le_0_compat; lra).
    assert (0 <= ((1 # 2) - t) * ((1 # 2) + t))
      by (apply Qmult_le_0_compat; lra).
    split; [lra|].
    assert (X : 1 - 2 * t * t
                == (1 # 2) + 2 * (((1 # 2) - t) * ((1 # 2) + t))) by ring.
    lra.
  - apply MathFacts.ltb_ge in E.
    assert (0 <= (1 - t) * (1 - t)) by (apply Qmult_le_0_compat; lra).
    assert (0 <= (t - (1 # 2)) * ((3 # 2) - t))
      by (apply Qmult_le_0_compat; lra).
    assert (X : 1 - (- (2) * t + 2) * (- (2) * t + 2) / 2
                == 1 - 2 * ((1 - t) * (1 - t))) by field.
    assert (Y : 1 - 2 * ((1 - t) * (1 - t))
                == (1 # 2) + 2 * ((t - (1 # 2)) * ((3 # 2) - t))) by ring.
    rewrite X. split; lra.
Qed.

Lemma clampTo_proper lo hi x y :
  x == y -> Math.clampTo lo hi x == Math.clampTo lo hi y.
Proof.
  intros E. unfold Math.clampTo.
  destruct (MathFacts.min_spec hi x) as [[? ->]|[? ->]];
  destruct (MathFacts.min_spec hi y) as [[? ->]|[? ->]];
  repeat match goal with
         | |- context [Math.max ?a ?b] =>
             destruct (MathFacts.max_spec a b) as [[? ->]|[? ->]]
         end; lra.
Qed.

Section PathSelection.

Variable MORPH_TIMING : MorphTiming.
Hypothesis start_before_end : mt_start MORPH_TIMING < mt_end MORPH_TIMING.

Lemma morphT_ge1 t :
  Math.geb (morphT MORPH_TIMING t) 1 = true <-> mt_end MORPH_TIMING <= t.
Proof.
  rewrite MathFacts.geb_ge, <- (sub_progress_ge1 _ _ t start_before_end).
  unfold morphT.
  destruct (MathFacts.min_spec
              ((t - mt_start MORPH_TIMING)
               / (mt_end MORPH_TIMING - mt_start MORPH_TIMING)) 1)
    as [[? ->]|[? ->]]; split; lra.
Qed.


Lemma morphT_le1 t : morphT MORPH_TIMING t <= 1.
Proof.
  unfold morphT.
  match goal with
  | |- Math.min ?a ?b <= _ =>
      destruct (MathFacts.min_spec a b) as [[? ->]|[? ->]]; lra
  end.
Qed.

End PathSelection.

Lemma transition_flags fr st :
  (isOutcomeOnlyTransition fr st = true ->
   1 <= currentProgress fr /\ prevOutcomeRef st <> Some (currentOutcome fr)) /\
  (isPhaseTransition fr st = true ->
   1 <= currentProgress fr /\ prevScatterPhaseRef st <> Some (scatterPhase fr)).
Proof.
  unfold isOutcomeOnlyTransition, isPhaseTransition, refDiffers.
  split; intros H; apply andb_true_iff in H; destruct H as [G R];
    apply MathFacts.geb_ge in G; (split; [exact G|]).
  - destruct (prevOutcomeRef st) as [p|]; [|discriminate].
    intros E. injection E as ->. destruct (currentOutcome fr); discriminate.
  - destruct (prevScatterPhaseRef st) as [p|]; [|discriminate].
    intros E. injection E as ->. destruct (scatterPhase fr); discriminate.
Qed.

(** *** What the marker routines write *)

Ltac read_attr :=
  unfold style, attr; cbn [el_attrs];
  repeat (rewrite lookup_insert_ne by discriminate);
  rewrite lookup_insert_eq; reflexivity.


Lemma renderMorphingDots_marker MORPH_TIMING OPACITY_dot children projection
    data xScale yScale t eased e :
  In e (renderMorphingDots MORPH_TIMING OPACITY_dot children projection data
          xScale yScale t eased) ->
  el_class e = morph_dot ->
  (In e children /\ t <= dotFadeStart MORPH_TIMING) \/
  exists d, In d data /\
    el_attrs e !! "cx" = Some (ANum (morphingDotCx projection xScale eased d)) /\
    el_attrs e !! "cy" = Some (ANum (morphingDotCy projection yScale eased d)).
Proof.
  unfold renderMorphingDots. intros H C.
  destruct (Math.leb t (dotFadeStart MORPH_TIMING)) eqn:L.
  - left. split; [exact H|]. now apply MathFacts.leb_le.
  - right. apply joinKeyed_In in H.
    destruct H as [[_ N]|[(d & e0 & Hd & _ & ->)|[(e0 & _ & X)|(d & Hd & ->)]]].
    + congruence.
    + exists d. split; [exact Hd|]. split; read_attr.
    + discriminate X.
    + exists d. split; [exact Hd|]. split; read_attr.
Qed.

Lemma morphingDot_bounds projection xScale yScale eased d :
  0 <= range1 xScale -> 0 <= range0 yScale ->
  0 <= morphingDotCx projection xScale eased d <= range1 xScale /\
  0 <= morphingDotCy projection yScale eased d <= range0 yScale.
Proof.
  intros Hx Hy. unfold morphingDotCx, morphingDotCy.
  split; apply MathFacts.clampTo_bounds; assumption.
Qed.

(** *** What one run of the effect renders *)

Lemma overMainGroup_ext (f f' : list Element -> list Element) s :
  (forall g, f g = f' g) -> overMainGroup f s = overMainGroup f' s.
Proof.
  intros H. induction s as [|[e|tr children] rest IH]; simpl.
  - reflexivity.
  - now rewrite IH.
  - now rewrite H.
Qed.

(** From [morphT >= 1] on, [renderMorph] is the outcome transition when the
    outcome changed and [renderFullScatterDots] otherwise. *)
Lemma renderMorph_settled MT OP sqrt atan2 cos sin g projection xScale yScale
    merged scatterData allScatterData ubigeos m o h isO isP :
  Math.geb m 1 = true ->
  renderMorph MT OP sqrt atan2 cos sin g projection xScale yScale merged
              scatterData allScatterData ubigeos m o h isO isP
  = if isO
    then renderOutcomeTransition OP g allScatterData xScale yScale h o
    else renderFullScatterDots OP g scatterData xScale yScale.
Proof.
  intros G.
  assert (L : Math.ltb m 1 = false)
    by (apply MathFacts.ltb_ge; now apply MathFacts.geb_ge).
  unfold renderMorph, morphBranch. rewrite G, L.
  destruct isO, isP; reflexivity.
Qed.

Lemma morphBranch_morphing m isO isP :
  morphBranch m isO isP = MorphingBranch -> Math.ltb m 1 = true.
Proof.
  unfold morphBranch.
  destruct (Math.geb m 1 && isO); [discriminate|].
  destruct (Math.geb m 1 && isP); [discriminate|].
  destruct (Math.ltb m 1); [reflexivity|discriminate].
Qed.

Lemma renderMorph_morphing MT OP sqrt atan2 cos sin g projection xScale yScale
    merged scatterData allScatterData ubigeos m o h isO isP :
  morphBranch m isO isP = MorphingBranch ->
  renderMorph MT OP sqrt atan2 cos sin g projection xScale yScale merged
              scatterData allScatterData ubigeos m o h isO isP
  = renderMorphingDots MT OP
      (renderMorphingDistricts OP sqrt atan2 cos sin
         (renderFadingDistricts g projection merged ubigeos (easeInOutQuad m))
         projection scatterData xScale yScale (easeInOutQuad m))
      projection scatterData xScale yScale m (easeInOutQuad m).
Proof.
  intros B. unfold renderMorph. rewrite B.
  now rewrite (morphBranch_morphing _ _ _ B).
Qed.



Section EffectScene.

Variable MORPH_TIMING : MorphTiming.
Variable OPACITY_dot : Q.
Variable DEFAULT_MARGIN : Margin.
Variable Math_sqrt : Q -> Q.
Variable Math_atan2 : Q -> Q -> Q.
Variable Math_cos : Q -> Q.
Variable Math_sin : Q -> Q.
Variable createProjection :
  list MergedDistrictData -> Q -> Q -> Q -> Projection.
Variable createYScales :
  list ScatterDataPoint -> Q -> OutcomeType -> ScaleLinear.
Variable calculateFittedLines :
  list ScatterDataPoint -> OutcomeType -> bool * bool.

Let effect := renderEffect MORPH_TIMING OPACITY_dot DEFAULT_MARGIN Math_sqrt
                Math_atan2 Math_cos Math_sin createProjection createYScales
                calculateFittedLines.

(** One run of the effect, from the dispatch on. *)
Lemma renderEffect_svg fr st :
  svg (effect fr st)
  = let t := currentProgress fr in
    let scatterData := filterScatterData (mergedData fr) (currentOutcome fr) in
    let allScatterData := getAllScatterData (mergedData fr) in
    let fittedLines := calculateFittedLines scatterData (currentOutcome fr) in
    let s :=
      if Math.ltb t (3 # 10) then
        overMainGroup (fun g => renderMap g (mergedData fr))
                      (sceneBeforeDispatch DEFAULT_MARGIN fr st)
      else
        overMainGroup
          (fun g =>
             renderMorph MORPH_TIMING OPACITY_dot Math_sqrt Math_atan2 Math_cos
               Math_sin g
               (createProjection (mergedData fr) (currentZoom fr)
                                 (innerWidth fr) (innerHeight fr))
               (createXScale (innerWidth fr))
               (createYScales allScatterData (innerHeight fr) (currentOutcome fr))
               (mergedData fr) scatterData allScatterData
               (list_to_set (List.map (fun d => ubigeo (base d)) scatterData))
               (morphT MORPH_TIMING t) (currentOutcome fr) (innerHeight fr)
               (isOutcomeOnlyTransition fr st) (isPhaseTransition fr st))
          (sceneBeforeDispatch DEFAULT_MARGIN fr st) in
    if Math.geb t 1
    then renderFittedLines s (fst fittedLines) (snd fittedLines)
                           (scatterPhase fr) DEFAULT_MARGIN
    else s.
Proof. reflexivity. Qed.



(** From [t >= 0.3] with [morphT >= 1] on it ends with the outcome
    transition or with [renderFullScatterDots], and with the fitted
    lines if [t >= 1]. *)
Lemma renderEffect_settled fr st :
  1 <= currentProgress fr ->
  Math.geb (morphT MORPH_TIMING (currentProgress fr)) 1 = true ->
  let scatterData := filterScatterData (mergedData fr) (currentOutcome fr) in
  let allScatterData := getAllScatterData (mergedData fr) in
  let xScale := createXScale (innerWidth fr) in
  let yScale := createYScales allScatterData (innerHeight fr)
                              (currentOutcome fr) in
  let fittedLines := calculateFittedLines scatterData (currentOutcome fr) in
  svg (effect fr st)
  = renderFittedLines
      (overMainGroup
         (fun g =>
            if isOutcomeOnlyTransition fr st
            then renderOutcomeTransition OPACITY_dot g allScatterData xScale
                   yScale (innerHeight fr) (currentOutcome fr)
            else renderFullScatterDots OPACITY_dot g scatterData xScale yScale)
         (sceneBeforeDispatch DEFAULT_MARGIN fr st))
      (fst fittedLines) (snd fittedLines) (scatterPhase fr) DEFAULT_MARGIN.
Proof.
  intros L GM scatterData allScatterData xScale yScale fittedLines.
  assert (M : Math.ltb (currentProgress fr) (3 # 10) = false)
    by (apply MathFacts.ltb_ge; lra).
  assert (G : Math.geb (currentProgress fr) 1 = true)
    by now apply MathFacts.geb_ge.
  rewrite renderEffect_svg. cbv zeta. rewrite M, G. f_equal.
  apply overMainGroup_ext. intros g. now apply renderMorph_settled.
Qed.



End EffectScene.



(** *** The morphing path *)

Lemma morphingPath_inv MT fr st :
  renderPath MT fr st = MorphingPath ->
  3 # 10 <= currentProgress fr /\
  morphBranch (morphT MT (currentProgress fr)) (isOutcomeOnlyTransition fr st)
              (isPhaseTransition fr st) = MorphingBranch.
Proof.
  unfold renderPath.
  destruct (Math.ltb (currentProgress fr) (3 # 10)) eqn:L; [discriminate|].
  apply MathFacts.ltb_ge in L. intros H. split; [exact L|].
  destruct (morphBranch _ _ _); (reflexivity || discriminate).
Qed.

Lemma not_marker_fading children projection data ubigeos eased :
  Forall (fun e => el_class e <> morph_dot) children ->
  Forall (fun e => el_class e <> morph_dot)
         (renderFadingDistricts children projection data ubigeos eased).
Proof.
  intros H. unfold renderFadingDistricts.
  apply joinIndexed_Forall; [discriminate|intros d e He; exact He|exact H].
Qed.

Lemma not_marker_morphing OP sqrt atan2 cos sin children projection data
    xScale yScale eased :
  Forall (fun e => el_class e <> morph_dot) children ->
  Forall (fun e => el_class e <> morph_dot)
         (renderMorphingDistricts OP sqrt atan2 cos sin children projection data
                                  xScale yScale eased).
Proof.
  intros H. unfold renderMorphingDistricts.
  apply joinKeyed_Forall;
    [discriminate|intros d e He; exact He|discriminate|exact H].
Qed.

Lemma renderEffect_below_full MT OP margin sqrt atan2 cos sin createProjection
    createYScales calculateFittedLines fr st :
  3 # 10 <= currentProgress fr < 1 ->
  svg (renderEffect MT OP margin sqrt atan2 cos sin createProjection
         createYScales calculateFittedLines fr st)
  = [MainGroup (Some (m_left margin, m_top margin))
       (renderMorph MT OP sqrt atan2 cos sin
          (renderScatterAxes (renderScatterLabels (renderScatterBackgrounds [])))
          (createProjection (mergedData fr) (currentZoom fr) (innerWidth fr)
                            (innerHeight fr))
          (createXScale (innerWidth fr))
          (createYScales (getAllScatterData (mergedData fr)) (innerHeight fr)
                         (currentOutcome fr))
          (mergedData fr)
          (filterScatterData (mergedData fr) (currentOutcome fr))
          (getAllScatterData (mergedData fr))
          (list_to_set
             (List.map (fun d => ubigeo (base d))
                (filterScatterData (mergedData fr) (currentOutcome fr))))
          (morphT MT (currentProgress fr)) (currentOutcome fr) (innerHeight fr)
          false false)].
Proof.
  intros [L U].
  assert (G : Math.geb (currentProgress fr) 1 = false).
  { destruct (Math.geb (currentProgress fr) 1) eqn:G; [|reflexivity].
    apply MathFacts.geb_ge in G. lra. }
  assert (M : Math.ltb (currentProgress fr) (3 # 10) = false)
    by now apply MathFacts.ltb_ge.
  unfold renderEffect, isOutcomeOnlyTransition, isPhaseTransition.
  rewrite G, M. reflexivity.
Qed.

(** *** What the morphing path draws *)












(** C6. In a frame of the morphing path every marker of the scene has its
    centre inside the plot: [cx] in [[0, innerWidth]] and [cy] in
    [[0, innerHeight]]; the clamp holds for any blend factor, also where the
    blend of the projected centroid and the scatter coordinate leaves the
    plot. *)
Theorem morphing_markers_within_bounds
    (MT : MorphTiming) (OP : Q) (margin : Margin)
    (sqrt : Q -> Q) (atan2 : Q -> Q -> Q) (cos sin : Q -> Q)
    (createProjection : list MergedDistrictData -> Q -> Q -> Q -> Projection)
    (createYScales : list ScatterDataPoint -> Q -> OutcomeType -> ScaleLinear)
    (calculateFittedLines : list ScatterDataPoint -> OutcomeType -> bool * bool)
    (fr : Frame) (st : RenderState)
    (Hpath : renderPath MT fr st = MorphingPath)
    (Ht : currentProgress fr < 1)
    (Hw : 0 <= innerWidth fr) (Hh : 0 <= innerHeight fr)
    (Hy : range0 (createYScales (getAllScatterData (mergedData fr))
                                (innerHeight fr) (currentOutcome fr))
          = innerHeight fr) :
  (forall tr children e,
     In (MainGroup tr children)
        (svg (renderEffect MT OP margin sqrt atan2 cos sin createProjection
                createYScales calculateFittedLines fr st)) ->
     In e children -> el_class e = morph_dot ->
     exists x y,
       el_attrs e !! "cx" = Some (ANum x) /\
       el_attrs e !! "cy" = Some (ANum y) /\
       0 <= x <= innerWidth fr /\ 0 <= y <= innerHeight fr) /\
  (forall (projection : Projection) blend d,
     let yScale := createYScales (getAllScatterData (mergedData fr))
                                 (innerHeight fr) (currentOutcome fr) in
     0 <= morphingDotCx projection (createXScale (innerWidth fr)) blend d
       <= innerWidth fr /\
     0 <= morphingDotCy projection yScale blend d <= innerHeight fr).
Proof.
  assert (B : forall (projection : Projection) blend d,
             0 <= morphingDotCx projection (createXScale (innerWidth fr)) blend d
               <= innerWidth fr /\
             0 <= morphingDotCy projection
                    (createYScales (getAllScatterData (mergedData fr))
                                   (innerHeight fr) (currentOutcome fr)) blend d
               <= innerHeight fr).
  { intros projection blend d.
    pose proof (morphingDot_bounds projection (createXScale (innerWidth fr))
                  (createYScales (getAllScatterData (mergedData fr))
                                 (innerHeight fr) (currentOutcome fr))
                  blend d) as X.
    rewrite Hy in X. apply X; [exact Hw|exact Hh]. }
  split; [|exact B].
  destruct (morphingPath_inv MT fr st Hpath) as [L Br].
  intros tr children e Hn He Hc.
  rewrite renderEffect_below_full in Hn by (split; assumption).
  destruct Hn as [Hn|[]]. injection Hn as _ <-.
  assert (F : isOutcomeOnlyTransition fr st = false /\
              isPhaseTransition fr st = false).
  { pose proof (transition_flags fr st) as [FO FP].
    split.
    - destruct (isOutcomeOnlyTransition fr st); [|reflexivity].
      destruct FO; [reflexivity|lra].
    - destruct (isPhaseTransition fr st); [|reflexivity].
      destruct FP; [reflexivity|lra]. }
  destruct F as [F1 F2]. rewrite F1, F2 in Br.
  rewrite (renderMorph_morphing _ _ _ _ _ _ _ _ _ _ _ _ _ _ _ _ _ _ _ Br) in He.
  apply renderMorphingDots_marker in He; [|exact Hc].
  destruct He as [[He _]|(d & _ & Hx & Hy')].
  - exfalso.
    assert (N : Forall (fun e => el_class e <> morph_dot)
                  (renderScatterAxes
                     (renderScatterLabels (renderScatterBackgrounds []))))
      by (repeat constructor; discriminate).
    apply not_marker_fading with (projection :=
        createProjection (mergedData fr) (currentZoom fr) (innerWidth fr)
                         (innerHeight fr)) (data := mergedData fr)
        (ubigeos := list_to_set
             (List.map (fun d => ubigeo (base d))
                (filterScatterData (mergedData fr) (currentOutcome fr))))
        (eased := easeInOutQuad (morphT MT (currentProgress fr))) in N.
    eapply not_marker_morphing in N. rewrite Forall_forall in N.
    exact (N _ He Hc).
  - eexists. eexists. split; [exact Hx|]. split; [exact Hy'|]. apply B.
Qed.

Lemma morphing_markers_within_bounds_witness :
  renderPath Sample.timing Sample.frame Sample.state = MorphingPath /\
  currentProgress Sample.frame < 1 /\
  (forall tr children e,
     In (MainGroup tr children) Sample.scene ->
     In e children -> el_class e = morph_dot ->
     exists x y,
       el_attrs e !! "cx" = Some (ANum x) /\
       el_attrs e !! "cy" = Some (ANum y) /\
       0 <= x <= 610 /\ 0 <= y <= 430).
Proof.
  split; [reflexivity|]. split; [reflexivity|].
  apply (morphing_markers_within_bounds Sample.timing (7 # 10) Sample.margin
           Sample.zero1 Sample.zero2 Sample.zero1 Sample.zero1
           (fun _ _ _ _ => Sample.outside)
           (fun _ h _ => mkScale (0, 100) (h, 0) false)
           (fun _ _ => (true, true)) Sample.frame Sample.state);
    [reflexivity|reflexivity|discriminate|discriminate|reflexivity].
Defined.

(** The sample scene does hold markers, pulled in from outside the plot. *)
Example sample_scene_markers :
  exists tr children e,
    In (MainGroup tr children) Sample.scene /\ In e children /\
    el_class e = morph_dot /\ el_key e = Some 7%Z.
Proof.
  vm_compute. do 3 eexists. split; [left; reflexivity|].
  split; [do 6 right; left; reflexivity|split; reflexivity].
Qed.

(** *** The two ends of the marker interpolation *)







(** *** A projection that yields no coordinate *)

Lemma morphingDistrictPath_no_centroid sqrt atan2 cos sin
    (projection : Projection) xScale yScale eased d :
  projection (centroidLon (base d), centroidLat (base d)) = None ->
  morphingDistrictPath sqrt atan2 cos sin projection xScale yScale eased d
  = EmptyPath.
Proof. intros H. unfold morphingDistrictPath. now rewrite H. Qed.

Lemma morphingDot_no_centroid (projection : Projection) xScale yScale eased d :
  projection (centroidLon (base d), centroidLat (base d)) = None ->
  morphingDotCx projection xScale eased d
  = Math.clampTo 0 (range1 xScale)
      (0 + (scale_apply xScale (scatterX d) - 0) * eased) /\
  morphingDotCy projection yScale eased d
  = Math.clampTo 0 (range0 yScale)
      (0 + (scale_apply yScale (scatterY d) - 0) * eased).
Proof.
  intros H. unfold morphingDotCx, morphingDotCy. rewrite H.
  split; reflexivity.
Qed.

(** C10, on the code: when the projection yields no coordinate for the
    centroid of district 7, its morphing polygon is the empty path, but its
    marker is still drawn, blended from the stand-in map position [(0, 0)]
    towards its scatter coordinate. *)
Theorem failed_projection_marker_fallback :
  let p := scatterPoint Stunting Sample.d7 in
  let xScale := createXScale 610 in
  let eased := easeInOutQuad (9 # 10) in
  Sample.failing (centroidLon (base p), centroidLat (base p)) = None /\
  morphingDistrictPath Sample.zero1 Sample.zero2 Sample.zero1 Sample.zero1
    Sample.failing xScale Sample.yScale eased p = EmptyPath /\
  exists e,
    renderMorphingDots Sample.timing (7 # 10) [] Sample.failing [p] xScale
                       Sample.yScale (9 # 10) eased = [e] /\
    el_class e = morph_dot /\ el_key e = Some 7%Z /\
    el_attrs e !! "cx" = Some (ANum (morphingDotCx Sample.failing xScale eased p)) /\
    el_attrs e !! "cy"
      = Some (ANum (morphingDotCy Sample.failing Sample.yScale eased p)) /\
    morphingDotCx Sample.failing xScale eased p
      == scale_apply xScale (scatterX p) * eased /\
    morphingDotCy Sample.failing Sample.yScale eased p
      == scale_apply Sample.yScale (scatterY p) * eased /\
    0 < morphingDotCx Sample.failing xScale eased p.
Proof.
  intros p xScale eased. split; [reflexivity|]. split; [reflexivity|].
  eexists. split; [reflexivity|].
  repeat split; try reflexivity.
Qed.

(** * Further properties *)

(** ** dataUtils: the two derived tables *)

Lemma scatterValid_anyOutcomeValid o d :
  scatterValid o d = true -> anyOutcomeValid d = true.
Proof.
  unfold scatterValid, anyOutcomeValid.
  destruct (distance d); [|discriminate].
  destruct o; cbn [outcomeValue];
    [destruct (stunting d) as [v|]|destruct (consumption d) as [v|]
    |destruct (roads d) as [v|]]; try discriminate; intros H;
    apply MathFacts.geb_ge in H.
  - change (minValue Stunting) with (1 # 1000) in H.
    assert (P : Math.ltb 0 v = true) by (apply MathFacts.ltb_lt; lra).
    cbn [positive]. now rewrite P.
  - change (minValue Consumption) with (1 # 1000) in H.
    assert (P : Math.ltb 0 v = true) by (apply MathFacts.ltb_lt; lra).
    cbn [positive]. rewrite P. now rewrite orb_true_r.
  - change (minValue Roads) with 0 in H.
    assert (P : Math.geb v 0 = true) by now apply MathFacts.geb_ge.
    cbn [nonNegative]. rewrite P. now rewrite orb_true_r.
Qed.

(** X1. A point of the outcome-filtered table has its district in the
    all-outcomes table too, at the same [scatterX], and the Y value that
    table keeps for the outcome is the point's [scatterY]: the outcome
    transition sends a valid marker where the full scatter draws it. *)
Theorem filtered_point_in_all_data (data : list MergedDistrictData)
    (o : OutcomeType) (p : ScatterDataPoint)
    (Hp : In p (filterScatterData data o)) :
  exists q,
    In q (getAllScatterData data) /\ base q = base p /\
    scatterX q = scatterX p /\ getOutcomeY q o = Some (scatterY p).
Proof.
  apply in_map_iff in Hp. destruct Hp as (d & <- & H).
  apply filter_In in H. destruct H as [Hd V].
  exists (allScatterPoint d). split; [|split; [reflexivity|split; [reflexivity|]]].
  - apply in_map. apply filter_In. split; [exact Hd|].
    now apply scatterValid_anyOutcomeValid with o.
  - unfold scatterValid in V. destruct (distance d); [|discriminate].
    destruct o; cbn [outcomeValue] in V;
      cbn [getOutcomeY allScatterPoint stuntingY consumptionY roadsY scatterY
           scatterPoint outcomeValue OutcomeType_eqb asNumber].
    + destruct (stunting d) as [v|]; [|discriminate].
      apply MathFacts.geb_ge in V.
      change (minValue Stunting) with (1 # 1000) in V.
      assert (P : Math.ltb 0 v = true) by (apply MathFacts.ltb_lt; lra).
      cbn [positive asNumber]. now rewrite P.
    + destruct (consumption d) as [v|]; [|discriminate].
      apply MathFacts.geb_ge in V.
      change (minValue Consumption) with (1 # 1000) in V.
      assert (P : Math.ltb 0 v = true) by (apply MathFacts.ltb_lt; lra).
      cbn [positive asNumber]. now rewrite P.
    + destruct (roads d) as [v|]; [|discriminate].
      change (minValue Roads) with 0 in V.
      cbn [nonNegative asNumber]. now rewrite V.
Qed.

Lemma filtered_point_in_all_data_witness :
  exists q,
    In q (getAllScatterData [Sample.d7; Sample.d9]) /\
    base q = Sample.d7 /\ scatterX q = 25 /\
    getOutcomeY q Stunting = Some ((12 # 100) * 100).
Proof.
  apply (filtered_point_in_all_data [Sample.d7; Sample.d9] Stunting
           (scatterPoint Stunting Sample.d7)).
  simpl. left. reflexivity.
Defined.

Lemma NoDup_map_filter {A B : Type} (f : A -> B) (keep : A -> bool) l :
  NoDup (List.map f l) -> NoDup (List.map f (List.filter keep l)).
Proof.
  induction l as [|a l IH]; simpl; intros H; [constructor|].
  inversion H as [|? ? Hn Hl]; subst.
  destruct (keep a); simpl; [|now apply IH].
  constructor; [|now apply IH].
  intros C. apply Hn. apply in_map_iff in C. destruct C as (x & E & Hx).
  apply filter_In in Hx. apply in_map_iff. exists x. tauto.
Qed.

(** X2. When the district ids of the merged table are pairwise distinct,
    so are the keys of both derived tables, the keys the data joins of the
    marker layer bind by. *)
Theorem scatter_keys_distinct (data : list MergedDistrictData)
    (Hd : NoDup (List.map ubigeo data)) :
  (forall o,
     NoDup (List.map (fun p => ubigeo (base p)) (filterScatterData data o))) /\
  NoDup (List.map (fun p => ubigeo (base p)) (getAllScatterData data)).
Proof.
  split; [intros o|];
    unfold filterScatterData, getAllScatterData; rewrite List.map_map; simpl;
    now apply NoDup_map_filter.
Qed.

Lemma scatter_keys_distinct_witness :
  NoDup (List.map (fun p => ubigeo (base p))
                  (getAllScatterData [Sample.d7; Sample.d9])).
Proof.
  apply (scatter_keys_distinct [Sample.d7; Sample.d9]).
  repeat constructor; simpl; intros H;
    repeat (destruct H as [H|H]; [discriminate H|]); exact H.
Defined.

(** X3. In the outcome-filtered table [scatterY] is never negative and the
    magnitude of [scatterX] is the magnitude of the distance; a stunting
    rate is plotted as a percentage of at least 0.1. *)
Theorem filtered_point_coordinates (data : list MergedDistrictData)
    (o : OutcomeType) (p : ScatterDataPoint)
    (Hp : In p (filterScatterData data o)) :
  exists dist v,
    distance (base p) = Some dist /\ outcomeValue o (base p) = Some v /\
    Qabs (scatterX p) == Qabs dist /\
    0 <= scatterY p /\
    (o = Stunting -> scatterY p = v * 100 /\ 1 # 10 <= scatterY p) /\
    (o <> Stunting -> scatterY p = v).
Proof.
  apply in_map_iff in Hp. destruct Hp as (d & <- & H).
  apply filter_In in H. destruct H as [_ V]. unfold scatterValid in V.
  destruct (distance d) as [dist|] eqn:D; [|discriminate].
  destruct (outcomeValue o d) as [v|] eqn:O; [|discriminate].
  apply MathFacts.geb_ge in V.
  exists dist, v. cbn [base scatterPoint scatterX scatterY]. rewrite O.
  cbn [asNumber].
  split; [exact D|]. split; [reflexivity|]. split; [|split; [|split]].
  - unfold flippedDistance, Math.abs. rewrite D. simpl.
    destruct (isInside d).
    + apply Qabs_pos, Qabs_nonneg.
    + rewrite Qabs_opp. apply Qabs_pos, Qabs_nonneg.
  - destruct o; cbn [OutcomeType_eqb]; cbv iota;
      [change (minValue Stunting) with (1 # 1000) in V
      |change (minValue Consumption) with (1 # 1000) in V
      |change (minValue Roads) with 0 in V]; lra.
  - intros ->. change (minValue Stunting) with (1 # 1000) in V.
    cbn [OutcomeType_eqb]. cbv iota. split; [reflexivity|lra].
  - intros N. destruct o; [congruence|reflexivity|reflexivity].
Qed.

Lemma filtered_point_coordinates_witness :
  exists dist v,
    distance Sample.d9 = Some dist /\ stunting Sample.d9 = Some v /\
    Qabs (scatterX (scatterPoint Stunting Sample.d9)) == Qabs dist /\
    0 <= scatterY (scatterPoint Stunting Sample.d9).
Proof.
  destruct (filtered_point_coordinates [Sample.d7; Sample.d9] Stunting
              (scatterPoint Stunting Sample.d9))
    as (dist & v & H1 & H2 & H3 & H4 & _).
  - simpl. right. left. reflexivity.
  - exists dist, v. repeat split; assumption.
Defined.

(** X4. Every point of the all-outcomes table carries a distance and at
    least one outcome Y, and no outcome Y it carries is negative; a
    stunting or consumption Y is there exactly for a positive value, a
    roads Y exactly for a non-negative one. *)
Theorem all_data_point_outcomes (data : list MergedDistrictData)
    (p : ScatterDataPoint) (Hp : In p (getAllScatterData data)) :
  distance (base p) <> None /\
  (exists o y, getOutcomeY p o = Some y) /\
  (forall o y, getOutcomeY p o = Some y -> 0 <= y) /\
  (forall o, getOutcomeY p o <> None <->
             exists v, outcomeValue o (base p) = Some v /\
                       if OutcomeType_eqb o Roads then 0 <= v else 0 < v).
Proof.
  apply in_map_iff in Hp. destruct Hp as (d & <- & H).
  apply filter_In in H. destruct H as [_ V]. unfold anyOutcomeValid in V.
  destruct (distance d) as [dist|] eqn:D; [|discriminate].
  simpl. rewrite D. split; [discriminate|]. split; [|split].
  - apply orb_true_iff in V. destruct V as [V|V];
      [apply orb_true_iff in V; destruct V as [V|V]|].
    + exists Stunting. simpl. rewrite V.
      destruct (stunting d); [eexists; reflexivity|discriminate].
    + exists Consumption. simpl. rewrite V.
      destruct (consumption d); [eexists; reflexivity|discriminate].
    + exists Roads. simpl. rewrite V.
      destruct (roads d); [eexists; reflexivity|discriminate].
  - intros o y. destruct o; simpl.
    + destruct (stunting d) as [v|]; simpl; [|discriminate].
      destruct (Math.ltb 0 v) eqn:P; [|discriminate].
      apply MathFacts.ltb_lt in P. intros E. injection E as <-. lra.
    + destruct (consumption d) as [v|]; simpl; [|discriminate].
      destruct (Math.ltb 0 v) eqn:P; [|discriminate].
      apply MathFacts.ltb_lt in P. intros E. injection E as <-. lra.
    + destruct (roads d) as [v|]; simpl; [|discriminate].
      destruct (Math.geb v 0) eqn:P; [|discriminate].
      apply MathFacts.geb_ge in P. intros E. injection E as <-. exact P.
  - intros o. destruct o; simpl.
    + destruct (stunting d) as [v|]; simpl.
      * destruct (Math.ltb 0 v) eqn:P.
        -- apply MathFacts.ltb_lt in P. split; [eauto|discriminate].
        -- apply MathFacts.ltb_ge in P. split; [congruence|].
           intros (v' & E & L). injection E as <-. lra.
      * split; [congruence|]. intros (v' & E & _). discriminate.
    + destruct (consumption d) as [v|]; simpl.
      * destruct (Math.ltb 0 v) eqn:P.
        -- apply MathFacts.ltb_lt in P. split; [eauto|discriminate].
        -- apply MathFacts.ltb_ge in P. split; [congruence|].
           intros (v' & E & L). injection E as <-. lra.
      * split; [congruence|]. intros (v' & E & _). discriminate.
    + destruct (roads d) as [v|]; simpl.
      * destruct (Math.geb v 0) eqn:P.
        -- apply MathFacts.geb_ge in P. split; [eauto|discriminate].
        -- split; [congruence|]. intros (v' & E & L). injection E as <-.
           apply MathFacts.geb_ge in L. congruence.
      * split; [congruence|]. intros (v' & E & _). discriminate.
Qed.

Lemma all_data_point_outcomes_witness :
  distance (base (allScatterPoint Sample.d7)) <> None /\
  exists o y, getOutcomeY (allScatterPoint Sample.d7) o = Some y.
Proof.
  destruct (all_data_point_outcomes [Sample.d7; Sample.d9]
              (allScatterPoint Sample.d7)) as (H1 & H2 & _).
  - simpl. left. reflexivity.
  - split; assumption.
Defined.

(** ** dataUtils: merging the two source tables *)

Lemma find_snoc {A : Type} (f : A -> bool) l a :
  List.find f (l ++ [a])
  = match List.find f l with
    | Some x => Some x
    | None => if f a then Some a else None
    end.
Proof.
  induction l as [|b l IH]; simpl; [reflexivity|].
  destruct (f b); [reflexivity|exact IH].
Qed.

Lemma find_skip {A : Type} (f : A -> bool) l1 l2 :
  (forall x, In x l1 -> f x = false) ->
  List.find f (l1 ++ l2) = List.find f l2.
Proof.
  induction l1 as [|a l1 IH]; simpl; intros H; [reflexivity|].
  rewrite (H a) by now left. apply IH. intros x Hx. apply H. now right.
Qed.

Lemma outcomeMap_fold_lookup mitaData : forall (m : gmap Z DistrictData) k,
  fold_left (fun m d => <[dd_ubigeo d := d]> m) mitaData m !! k
  = match List.find (fun d => Z.eqb (dd_ubigeo d) k) (rev mitaData) with
    | Some d => Some d
    | None => m !! k
    end.
Proof.
  induction mitaData as [|a l IH]; intros m k; simpl; [reflexivity|].
  rewrite IH, find_snoc.
  destruct (List.find _ (rev l)); [reflexivity|].
  destruct (Z.eqb_spec (dd_ubigeo a) k) as [->|N].
  - apply lookup_insert_eq.
  - now apply lookup_insert_ne.
Qed.

Lemma outcomeMapOf_lookup mitaData k :
  outcomeMapOf mitaData !! k
  = List.find (fun d => Z.eqb (dd_ubigeo d) k) (rev mitaData).
Proof.
  unfold outcomeMapOf. rewrite outcomeMap_fold_lookup.
  destruct (List.find _ _); [reflexivity|apply lookup_empty].
Qed.

Lemma outcomeMapOf_absent mitaData k :
  (forall d, In d mitaData -> dd_ubigeo d <> k) ->
  outcomeMapOf mitaData !! k = None.
Proof.
  intros H. rewrite outcomeMapOf_lookup.
  destruct (List.find _ _) as [d|] eqn:F; [|reflexivity].
  apply find_some in F. destruct F as [Hd E].
  apply in_rev in Hd. apply Z.eqb_eq in E. now apply H in Hd.
Qed.

(** X5. The outcome map is last-write-wins: looking an id up gives the
    last record of mitaData with that id, and nothing when there is none. *)
Theorem outcomeMapOf_last_record (mitaData : list DistrictData) (k : Z) :
  outcomeMapOf mitaData !! k
  = List.find (fun d => Z.eqb (dd_ubigeo d) k) (rev mitaData) /\
  (forall front r back,
     mitaData = front ++ r :: back -> dd_ubigeo r = k ->
     (forall d, In d back -> dd_ubigeo d <> k) ->
     outcomeMapOf mitaData !! k = Some r) /\
  ((forall d, In d mitaData -> dd_ubigeo d <> k) ->
   outcomeMapOf mitaData !! k = None).
Proof.
  split; [apply outcomeMapOf_lookup|]. split; [|apply outcomeMapOf_absent].
  intros front r back -> Hr Hb. rewrite outcomeMapOf_lookup.
  rewrite rev_app_distr. simpl. rewrite <- app_assoc. simpl.
  rewrite find_skip.
  - simpl. rewrite Hr, Z.eqb_refl. reflexivity.
  - intros d Hd. apply in_rev in Hd. apply Z.eqb_neq. now apply Hb.
Qed.

Lemma mergeOne_no_record polygonCentroid mitaData poly :
  (forall d, In d mitaData -> dd_ubigeo d <> dp_ubigeo poly) ->
  distance (mergeOne polygonCentroid (outcomeMapOf mitaData) poly) = None.
Proof.
  intros H. unfold mergeOne. cbn [distance].
  now rewrite outcomeMapOf_absent.
Qed.

(** X6. [mergeData] yields one record per polygon, in order, with the
    polygon's id, mita flag and ring, whatever mitaData holds; and an id
    without a record in mitaData has no point in either scatter table. *)
Theorem mergeData_per_polygon (polygonCentroid : list (Q * Q) -> Q * Q)
    (districtPolygons : list DistrictPolygon) (mitaData : list DistrictData) :
  let merged := mergeData polygonCentroid districtPolygons mitaData in
  List.map ubigeo merged = List.map dp_ubigeo districtPolygons /\
  List.map mita merged = List.map dp_mita districtPolygons /\
  List.map polygon merged = List.map dp_polygon districtPolygons /\
  (forall k,
     (forall d, In d mitaData -> dd_ubigeo d <> k) ->
     (forall o p, In p (filterScatterData merged o) -> ubigeo (base p) <> k) /\
     (forall p, In p (getAllScatterData merged) -> ubigeo (base p) <> k)).
Proof.
  intros merged. subst merged. unfold mergeData.
  rewrite !List.map_map. cbn [ubigeo mita polygon mergeOne].
  repeat split; try reflexivity.
  - intros o p Hp E. apply in_map_iff in Hp. destruct Hp as (m & <- & Hm).
    apply filter_In in Hm. destruct Hm as [Hm V].
    apply in_map_iff in Hm. destruct Hm as (poly & <- & _).
    unfold scatterValid in V. cbn [base scatterPoint] in E.
    rewrite mergeOne_no_record in V; [discriminate|].
    cbn [ubigeo mergeOne] in E. now rewrite E.
  - intros p Hp E. apply in_map_iff in Hp. destruct Hp as (m & <- & Hm).
    apply filter_In in Hm. destruct Hm as [Hm V].
    apply in_map_iff in Hm. destruct Hm as (poly & <- & _).
    unfold anyOutcomeValid in V. cbn [base allScatterPoint] in E.
    rewrite mergeOne_no_record in V; [discriminate|].
    cbn [ubigeo mergeOne] in E. now rewrite E.
Qed.

(** ** dataUtils: shared edges *)

Lemma verticesMatch_sym v1 v2 : verticesMatch v1 v2 = verticesMatch v2 v1.
Proof.
  unfold verticesMatch, Math.abs.
  now rewrite (Qabs_Qminus (fst v1)), (Qabs_Qminus (snd v1)).
Qed.

Lemma verticesMatch_refl v : verticesMatch v v = true.
Proof.
  unfold verticesMatch. apply andb_true_iff.
  split; apply MathFacts.ltb_lt; unfold Math.abs, VERTEX_TOLERANCE;
    apply Qabs_Qlt_condition; split; ring_simplify; reflexivity.
Qed.

Lemma matchingPairs_cons_l v poly1 poly2 :
  matchingPairs (v :: poly1) poly2
  = (matchesOf v poly2 + matchingPairs poly1 poly2)%nat.
Proof. reflexivity. Qed.

Lemma matchingPairs_app_l poly1 poly1' poly2 :
  matchingPairs (poly1 ++ poly1') poly2
  = (matchingPairs poly1 poly2 + matchingPairs poly1' poly2)%nat.
Proof.
  unfold matchingPairs. rewrite List.map_app, list_sum_app. reflexivity.
Qed.

Lemma matchingPairs_cons_r v poly1 poly2 :
  matchingPairs poly1 (v :: poly2)
  = (matchesOf v poly1 + matchingPairs poly1 poly2)%nat.
Proof.
  unfold matchingPairs, matchesOf.
  induction poly1 as [|a poly1 IH]; [reflexivity|].
  simpl in IH |- *. rewrite IH, (verticesMatch_sym v a).
  destruct (verticesMatch a v); simpl; lia.
Qed.

Lemma matchingPairs_sym poly1 poly2 :
  matchingPairs poly1 poly2 = matchingPairs poly2 poly1.
Proof.
  induction poly1 as [|v poly1 IH].
  - unfold matchingPairs. simpl.
    induction poly2 as [|w poly2 IH2]; simpl; [reflexivity|exact IH2].
  - rewrite matchingPairs_cons_l, matchingPairs_cons_r, IH. reflexivity.
Qed.

Lemma matchesOf_pos v poly2 v2 :
  In v2 poly2 -> verticesMatch v v2 = true -> (1 <= matchesOf v poly2)%nat.
Proof.
  unfold matchesOf. induction poly2 as [|w poly2 IH]; intros H M; [destruct H|].
  simpl. destruct H as [->|H].
  - rewrite M. simpl. lia.
  - specialize (IH H M). destruct (verticesMatch v w); simpl; lia.
Qed.

Lemma bool_eq_iff (a b : bool) : (a = true <-> b = true) -> a = b.
Proof. destruct a, b; intros [H1 H2]; auto; symmetry; auto. Qed.

(** X7. Sharing an edge does not depend on the order of the two
    polygons, and an empty polygon shares an edge with nothing. *)
Theorem polygonsShareEdge_sym (poly1 poly2 : list Vertex) :
  polygonsShareEdge poly1 poly2 = polygonsShareEdge poly2 poly1 /\
  polygonsShareEdge [] poly2 = false /\
  polygonsShareEdge poly1 [] = false.
Proof.
  assert (S : forall p q, polygonsShareEdge p q = polygonsShareEdge q p).
  { intros p q. apply bool_eq_iff.
    rewrite !polygonsShareEdge_spec, matchingPairs_sym. reflexivity. }
  assert (E : forall q, polygonsShareEdge [] q = false).
  { intros q. destruct (polygonsShareEdge [] q) eqn:X; [|reflexivity].
    apply polygonsShareEdge_spec in X. unfold matchingPairs in X.
    simpl in X. lia. }
  split; [apply S|]. split; [apply E|]. rewrite S. apply E.
Qed.

(** X8. The test counts matching vertex pairs, not consecutive vertices: a
    ring that repeats one vertex (a closed ring, first vertex again at the
    end) shares an edge with any polygon that has one vertex matching it,
    and a polygon of two or more vertices shares an edge with itself. *)
Theorem polygonsShareEdge_counts_pairs :
  (forall v mid poly2 v2,
     In v2 poly2 -> verticesMatch v v2 = true ->
     polygonsShareEdge (v :: mid ++ [v]) poly2 = true) /\
  (forall poly, (2 <= List.length poly)%nat ->
                polygonsShareEdge poly poly = true).
Proof.
  split.
  - intros v mid poly2 v2 H M. apply polygonsShareEdge_spec.
    rewrite matchingPairs_cons_l, matchingPairs_app_l, matchingPairs_cons_l.
    pose proof (matchesOf_pos v poly2 v2 H M). lia.
  - intros poly L. apply polygonsShareEdge_spec.
    destruct poly as [|a [|b poly]]; simpl in L; try lia.
    rewrite !matchingPairs_cons_l.
    pose proof (matchesOf_pos a (a :: b :: poly) a ltac:(now left)
                  (verticesMatch_refl a)).
    pose proof (matchesOf_pos b (a :: b :: poly) b ltac:(right; now left)
                  (verticesMatch_refl b)).
    lia.
Qed.

(** X9. The boundary set holds only ids of districts of the table whose
    mita flag is 1 or 0, and it is empty when the table has no mita
    district or no non-mita district. *)
Theorem computeBoundaryDistricts_within (data : list MergedDistrictData) :
  (forall u, u ∈ computeBoundaryDistricts data ->
             exists d, In d data /\ ubigeo d = u /\
                       (mita d = 1%Z \/ mita d = 0%Z)) /\
  ((forall d, In d data -> mita d <> 1%Z) ->
   computeBoundaryDistricts data = ∅) /\
  ((forall d, In d data -> mita d <> 0%Z) ->
   computeBoundaryDistricts data = ∅).
Proof.
  split; [|split].
  - intros u Hu. apply computeBoundaryDistricts_spec in Hu.
    destruct Hu as (m & n & (Hm & Hn & Em & En & _) & [->| ->]).
    + exists m. auto.
    + exists n. auto.
  - intros H. apply set_eq. intros u. split; [|set_solver].
    intros Hu. apply computeBoundaryDistricts_spec in Hu.
    destruct Hu as (m & n & (Hm & _ & Em & _) & _). now apply H in Hm.
  - intros H. apply set_eq. intros u. split; [|set_solver].
    intros Hu. apply computeBoundaryDistricts_spec in Hu.
    destruct Hu as (m & n & (_ & Hn & _ & En & _) & _). now apply H in Hn.
Qed.

(** ** The easing curve and the animation loops *)

Lemma easeInOutQuad_low t : t < 1 # 2 -> easeInOutQuad t = 2 * t * t.
Proof.
  intros H. unfold easeInOutQuad.
  apply MathFacts.ltb_lt in H. now rewrite H.
Qed.

Lemma easeInOutQuad_high t :
  1 # 2 <= t -> easeInOutQuad t == 1 - 2 * ((1 - t) * (1 - t)).
Proof.
  intros H. unfold easeInOutQuad.
  apply MathFacts.ltb_ge in H. rewrite H. field.
Qed.

(** X10. The easing curve is point-symmetric about its midpoint:
    [ease (1 - t) = 1 - ease t] for every [t], with [ease (1/2) = 1/2]. *)
Theorem easeInOutQuad_symmetric (t : Q) :
  easeInOutQuad (1 - t) == 1 - easeInOutQuad t /\
  easeInOutQuad (1 # 2) == 1 # 2.
Proof.
  split; [|reflexivity].
  destruct (Qlt_le_dec t (1 # 2)) as [L|L];
    [|destruct (Qlt_le_dec (1 # 2) t) as [G|G]].
  - rewrite (easeInOutQuad_low t L).
    rewrite (easeInOutQuad_high (1 - t)) by lra. ring.
  - rewrite (easeInOutQuad_high t L).
    rewrite (easeInOutQuad_low (1 - t)) by lra. ring.
  - rewrite (easeInOutQuad_high t L).
    rewrite (easeInOutQuad_high (1 - t)) by lra.
    assert (E : t == 1 # 2) by lra. rewrite E. reflexivity.
Qed.

Lemma square_le a b : 0 <= a -> a <= b -> a * a <= b * b.
Proof.
  intros Ha Hab.
  assert (0 <= (b - a) * (b + a)) by (apply Qmult_le_0_compat; lra).
  assert (E : b * b - a * a == (b - a) * (b + a)) by ring.
  lra.
Qed.

(** X11. On [[0, 1]] the easing curve never goes backwards. *)
Theorem easeInOutQuad_monotone (s t : Q) (Hs : 0 <= s) (Hst : s <= t)
    (Ht : t <= 1) :
  easeInOutQuad s <= easeInOutQuad t.
Proof.
  destruct (Qlt_le_dec s (1 # 2)) as [Ls|Ls];
  destruct (Qlt_le_dec t (1 # 2)) as [Lt|Lt].
  - rewrite (easeInOutQuad_low s Ls), (easeInOutQuad_low t Lt).
    pose proof (square_le s t Hs Hst). lra.
  - rewrite (easeInOutQuad_low s Ls), (easeInOutQuad_high t Lt).
    pose proof (square_le s (1 # 2) Hs ltac:(lra)) as A.
    pose proof (square_le (1 - t) (1 # 2) ltac:(lra) ltac:(lra)) as B.
    assert (E : (1 # 2) * (1 # 2) == 1 # 4) by reflexivity.
    lra.
  - lra.
  - rewrite (easeInOutQuad_high s Ls), (easeInOutQuad_high t Lt).
    pose proof (square_le (1 - t) (1 - s) ltac:(lra) ltac:(lra)). lra.
Qed.

Lemma easeInOutQuad_monotone_witness :
  easeInOutQuad (1 # 4) <= easeInOutQuad (3 # 4).
Proof.
  apply (easeInOutQuad_monotone (1 # 4) (3 # 4)); discriminate.
Defined.

Lemma animate_eased start target duration startTime time :
  animate start target duration startTime time
  = (start + (target - start)
             * easeInOutQuad (Math.min ((time - startTime) / duration) 1),
     Math.ltb (Math.min ((time - startTime) / duration) 1) 1).
Proof. reflexivity. Qed.

Lemma fraction_unit duration elapsed :
  0 < duration -> 0 <= elapsed ->
  0 <= Math.min (elapsed / duration) 1 <= 1.
Proof.
  intros Hd He.
  assert (0 <= elapsed / duration) by (apply Qle_shift_div_l; lra).
  destruct (MathFacts.min_spec (elapsed / duration) 1) as [[? ->]|[? ->]]; lra.
Qed.

Lemma blend_between lo hi start target e :
  lo <= start <= hi -> lo <= target <= hi -> 0 <= e <= 1 ->
  lo <= start + (target - start) * e <= hi.
Proof.
  intros Hs Ht He.
  assert (A : 0 <= (target - lo) * e) by (apply Qmult_le_0_compat; lra).
  assert (B : 0 <= (start - lo) * (1 - e)) by (apply Qmult_le_0_compat; lra).
  assert (C : 0 <= (hi - target) * e) by (apply Qmult_le_0_compat; lra).
  assert (D : 0 <= (hi - start) * (1 - e)) by (apply Qmult_le_0_compat; lra).
  assert (E1 : start + (target - start) * e - lo
               == (target - lo) * e + (start - lo) * (1 - e)) by ring.
  assert (E2 : hi - (start + (target - start) * e)
               == (hi - target) * e + (hi - start) * (1 - e)) by ring.
  lra.
Qed.

(** X12. One frame of an animation loop, with a positive duration and a
    frame time not before the start of the loop: the value set lies between
    the start and the target; at the start time it is the start value; once
    the duration has elapsed it is exactly the target and no further frame
    is requested, before that another frame is. *)
Theorem animate_frame (start target duration startTime time lo hi : Q)
    (Hd : 0 < duration) (Htime : startTime <= time)
    (Hs : lo <= start <= hi) (Ht : lo <= target <= hi) :
  lo <= fst (animate start target duration startTime time) <= hi /\
  (time == startTime ->
   fst (animate start target duration startTime time) == start) /\
  (duration <= time - startTime ->
   fst (animate start target duration startTime time) == target /\
   snd (animate start target duration startTime time) = false) /\
  (time - startTime < duration ->
   snd (animate start target duration startTime time) = true).
Proof.
  rewrite animate_eased. cbn [fst snd].
  pose proof (fraction_unit duration (time - startTime) Hd ltac:(lra)) as U.
  set (t := Math.min ((time - startTime) / duration) 1) in *.
  split; [|split; [|split]].
  - apply blend_between; try assumption. now apply easeInOutQuad_unit.
  - intros E.
    assert (Z : (time - startTime) / duration == 0).
    { assert (E' : time - startTime == 0) by lra. rewrite E'.
      unfold Qdiv. ring. }
    assert (T : t == 0).
    { subst t.
      destruct (MathFacts.min_spec ((time - startTime) / duration) 1)
        as [[? ->]|[? ->]]; lra. }
    assert (X : easeInOutQuad t == 0).
    { rewrite easeInOutQuad_low by lra. rewrite T. ring. }
    rewrite X. ring.
  - intros L.
    assert (G : 1 <= (time - startTime) / duration)
      by (apply Qle_shift_div_l; lra).
    assert (T : t == 1).
    { subst t.
      destruct (MathFacts.min_spec ((time - startTime) / duration) 1)
        as [[? ->]|[? ->]]; lra. }
    split.
    + assert (X : easeInOutQuad t == 1).
      { rewrite easeInOutQuad_high by lra. rewrite T. ring. }
      rewrite X. ring.
    + apply MathFacts.ltb_ge. lra.
  - intros L. apply MathFacts.ltb_lt.
    assert (G : (time - startTime) / duration < 1)
      by (apply Qlt_shift_div_r; lra).
    subst t.
    destruct (MathFacts.min_spec ((time - startTime) / duration) 1)
      as [[? ->]|[? ->]]; lra.
Qed.

Lemma animate_frame_witness :
  fst (animate 0 1 800 1000 1800) == 1 /\
  snd (animate 0 1 800 1000 1800) = false /\
  snd (animate 0 1 800 1000 1400) = true.
Proof.
  destruct (animate_frame 0 1 800 1000 1800 0 1) as (_ & _ & [A B] & _);
    try (split; discriminate); try reflexivity; try discriminate.
  destruct (animate_frame 0 1 800 1000 1400 0 1) as (_ & _ & _ & C);
    try (split; discriminate); try reflexivity; try discriminate.
  split; [exact A|]. split; [exact B|]. apply C. reflexivity.
Defined.

Lemma animationStep_within duration lo hi s ev :
  0 < duration -> lo <= hi -> loopWithin lo hi s ->
  timely duration lo hi [ev] s ->
  loopWithin lo hi (animationStep duration s ev).
Proof.
  intros Hd Hlh [Hv Hl] [He _]. destruct ev as [target now|time].
  - unfold loopWithin. simpl. auto.
  - unfold animationStep.
    destruct (an_loop s) as [[[start target] startTime]|] eqn:L;
      [|unfold loopWithin; rewrite L; auto].
    destruct Hl as [Hs Ht].
    pose proof (animate_frame start target duration startTime time lo hi
                  Hd He Hs Ht) as (B & _).
    destruct (animate start target duration startTime time) as [v again].
    unfold loopWithin. cbn [an_value an_loop fst] in *.
    split; [exact B|]. destruct again; auto.
Qed.

(** X13. An animated value never leaves the interval of its targets: from
    a value in [[lo, hi]], through any sequence of retargetings into
    [[lo, hi]] and of frame callbacks (none timed before the start of its
    loop), the value stays in [[lo, hi]] -- so morph progress, zoom and
    border opacity stay in [[0, 1]]. *)
Theorem animated_value_within (duration lo hi : Q)
    (events : list AnimationEvent) (s : Animated)
    (Hd : 0 < duration) (Hlh : lo <= hi)
    (Hs : loopWithin lo hi s) (Hev : timely duration lo hi events s) :
  lo <= an_value (runAnimation duration events s) <= hi.
Proof.
  unfold runAnimation. revert s Hs Hev.
  induction events as [|ev rest IH]; intros s Hs Hev; simpl.
  - apply Hs.
  - destruct Hev as [He Hrest]. apply IH; [|exact Hrest].
    apply animationStep_within; try assumption. split; [exact He|exact I].
Qed.

Lemma animated_value_within_witness :
  let events := [Retarget (zoomTarget mitaZoom) 0; FrameCallback 100;
                 Retarget (borderTarget false) 150; FrameCallback 200;
                 FrameCallback 700] in
  0 <= an_value (runAnimation 400 events (mkAnimated 0 None)) <= 1.
Proof.
  intros events.
  apply (animated_value_within 400 0 1 events (mkAnimated 0 None));
    [reflexivity|discriminate| |].
  - split; [split; discriminate|exact I].
  - simpl. repeat split; discriminate.
Defined.

(** ** Data joins and the marker layer *)

Section JoinKeys.

Context {D : Type}.
Variable cls : Class.
Variable key : D -> Z.
Variable enter : D -> Element.
Variable update : D -> Element -> Element.
Variable exit : Element -> option Element.

Hypothesis enter_class : forall d, el_class (enter d) = cls.
Hypothesis enter_key : forall d, el_key (enter d) = Some (key d).
Hypothesis update_class : forall d e, el_class (update d e) = el_class e.
Hypothesis update_key : forall d e, el_key (update d e) = el_key e.

(** An element of the class after the join: an updated element whose key
    is the key of its datum, an element that went through [exit], or an
    entered one. *)
Lemma joinKeyed_In_class data children e :
  In e (joinKeyed cls key enter update exit data children) ->
  el_class e = cls ->
  (exists d e0, In d data /\ In e0 children /\ el_class e0 = cls /\
                el_key e0 = Some (key d) /\ e = update d e0 /\
                List.find (fun d' => Z.eqb (key d') (key d)) data = Some d) \/
  (exists e0, In e0 children /\ el_class e0 = cls /\ exit e0 = Some e) \/
  (exists d, In d data /\ e = enter d /\
             forall e0, In e0 children -> el_class e0 = cls ->
                        el_key e0 <> Some (key d)).
Proof.
  unfold joinKeyed. rewrite in_app_iff, in_flat_map, in_map_iff.
  intros [(e0 & H0 & H)|(d & <- & H)] C.
  - destruct (Class_eqb (el_class e0) cls) eqn:C0.
    + apply Class_eqb_eq in C0.
      destruct (el_key e0) as [k|] eqn:K; simpl in H.
      * destruct (List.find (fun d => Z.eqb (key d) k) data) as [d|] eqn:F.
        -- destruct H as [<-|[]]. left. exists d, e0.
           pose proof (find_some _ _ F) as [Hd E]. apply Z.eqb_eq in E.
           subst k. auto 10.
        -- right. left. exists e0.
           destruct (exit e0) as [e'|]; [|destruct H].
           destruct H as [<-|[]]. auto.
      * right. left. exists e0.
        destruct (exit e0) as [e'|]; [|destruct H].
        destruct H as [<-|[]]. auto.
    + destruct H as [<-|[]]. apply Class_eqb_eq in C. congruence.
  - apply filter_In in H. destruct H as [Hd X]. right. right.
    exists d. split; [exact Hd|]. split; [reflexivity|].
    intros e0 H0 C0 K. apply negb_true_iff in X.
    assert (Y : existsb (fun e => Class_eqb (el_class e) cls && hasKey (key d) e)
                        children = true).
    { apply existsb_exists. exists e0. split; [exact H0|].
      apply andb_true_iff. split; [now apply Class_eqb_eq|].
      unfold hasKey. rewrite K. apply Z.eqb_refl. }
    congruence.
Qed.

(** Elements of other classes pass through a join untouched. *)
Lemma joinKeyed_other data children e :
  el_class e <> cls ->
  (forall e0 e', exit e0 = Some e' -> el_class e' = el_class e0) ->
  (In e (joinKeyed cls key enter update exit data children) <-> In e children).
Proof.
  intros N X. unfold joinKeyed.
  rewrite in_app_iff, in_flat_map, in_map_iff. split.
  - intros [(e0 & H0 & H)|(d & <- & _)].
    + destruct (Class_eqb (el_class e0) cls) eqn:C0.
      * exfalso. apply Class_eqb_eq in C0.
        destruct (el_key e0 ≫= _) as [d|].
        -- destruct H as [<-|[]]. rewrite update_class in N. congruence.
        -- destruct (exit e0) as [e'|] eqn:Hx; [|destruct H].
           destruct H as [<-|[]]. apply X in Hx. congruence.
      * destruct H as [<-|[]]. exact H0.
    + exfalso. now rewrite enter_class in N.
  - intros H. left. exists e. split; [exact H|].
    destruct (Class_eqb (el_class e) cls) eqn:C; [|now left].
    apply Class_eqb_eq in C. congruence.
Qed.

(** With [exit => exit.remove()], the keys of the class after the join are
    the keys of the data. *)
Lemma joinKeyed_keys data children k :
  exit = exitRemove ->
  ((exists e, In e (joinKeyed cls key enter update exit data children) /\
              el_class e = cls /\ el_key e = Some k)
   <-> exists d, In d data /\ key d = k).
Proof.
  intros Hx. split.
  - intros (e & H & C & K).
    apply joinKeyed_In_class in H; [|exact C].
    destruct H as [(d & e0 & Hd & _ & _ & K0 & -> & _)
                  |[(e0 & _ & _ & X)|(d & Hd & -> & _)]].
    + exists d. split; [exact Hd|]. rewrite update_key in K. congruence.
    + rewrite Hx in X. discriminate X.
    + exists d. split; [exact Hd|]. rewrite enter_key in K. congruence.
  - intros (d & Hd & <-). unfold joinKeyed.
    destruct (existsb (fun e => Class_eqb (el_class e) cls && hasKey (key d) e)
                      children) eqn:X.
    + apply existsb_exists in X. destruct X as (e0 & H0 & H).
      apply andb_true_iff in H. destruct H as [C K].
      unfold hasKey in K. destruct (el_key e0) as [k|] eqn:EK; [|discriminate].
      apply Z.eqb_eq in K. subst k.
      destruct (List.find (fun d' => Z.eqb (key d') (key d)) data) as [d'|] eqn:F.
      * exists (update d' e0). split; [|split].
        -- apply in_app_iff. left. apply in_flat_map. exists e0.
           split; [exact H0|]. rewrite C, EK. simpl. rewrite F. now left.
        -- rewrite update_class. now apply Class_eqb_eq.
        -- now rewrite update_key.
      * exfalso. apply (find_none _ _ F) in Hd. rewrite Z.eqb_refl in Hd.
        discriminate.
    + exists (enter d). split; [|split; [apply enter_class|apply enter_key]].
      apply in_app_iff. right. apply in_map. apply filter_In.
      split; [exact Hd|]. now rewrite X.
Qed.

End JoinKeys.

Section JoinIndexedFacts.

Context {D : Type}.
Variable cls : Class.
Variable enter : D -> Element.
Variable update : D -> Element -> Element.

Hypothesis enter_class : forall d, el_class (enter d) = cls.
Hypothesis update_class : forall d e, el_class (update d e) = el_class e.

(** A join by index leaves one element of the class per datum. *)
Lemma joinIndexed_count children : forall data,
  List.length (ofClass cls (joinIndexed cls enter update data children))
  = List.length data.
Proof.
  unfold ofClass.
  induction children as [|e rest IH]; intros data; simpl.
  - induction data as [|d data IHd]; simpl; [reflexivity|].
    rewrite enter_class, Class_eqb_refl. simpl. now rewrite IHd.
  - destruct (Class_eqb (el_class e) cls) eqn:C.
    + destruct data as [|d data']; [apply IH|].
      simpl. rewrite update_class, C. simpl. now rewrite IH.
    + simpl. rewrite C. apply IH.
Qed.

(** Where an element of the class comes from after a join by index. *)
Lemma joinIndexed_In_class children : forall data e,
  In e (joinIndexed cls enter update data children) -> el_class e = cls ->
  exists d, In d data /\ (e = enter d \/ exists e0, In e0 children /\ e = update d e0).
Proof.
  induction children as [|e0 rest IH]; intros data e H C; simpl in H.
  - apply in_map_iff in H. destruct H as (d & <- & Hd). eauto.
  - destruct (Class_eqb (el_class e0) cls) eqn:C0.
    + destruct data as [|d data'].
      * destruct (IH [] e H C) as (d & [] & _).
      * destruct H as [<-|H].
        -- exists d. split; [now left|]. right. exists e0. split; [now left|reflexivity].
        -- destruct (IH data' e H C) as (d' & Hd' & [->|(e1 & H1 & ->)]).
           ++ exists d'. split; [now right|now left].
           ++ exists d'. split; [now right|]. right. exists e1.
              split; [now right|reflexivity].
    + destruct H as [<-|H].
      * apply Class_eqb_eq in C. congruence.
      * destruct (IH data e H C) as (d' & Hd' & [->|(e1 & H1 & ->)]).
        -- exists d'. split; [exact Hd'|now left].
        -- exists d'. split; [exact Hd'|]. right. exists e1.
           split; [now right|reflexivity].
Qed.

End JoinIndexedFacts.

(** X14. After [renderFullScatterDots] the markers are keyed by exactly the
    ids of the scatter data (stale markers are removed, missing ones
    entered), and every element of another class is left as it was; the
    same holds for [renderMorphingDots] once the dots have started to fade
    in. *)
Theorem marker_layer_keys (MT : MorphTiming) (OP : Q)
    (children : list Element) (projection : Projection)
    (data : list ScatterDataPoint) (xScale yScale : ScaleLinear)
    (t eased : Q) :
  let full := renderFullScatterDots OP children data xScale yScale in
  let dots := renderMorphingDots MT OP children projection data xScale yScale
                                 t eased in
  (forall k,
     (exists e, In e full /\ el_class e = morph_dot /\ el_key e = Some k)
     <-> exists d, In d data /\ ubigeo (base d) = k) /\
  (forall e, el_class e <> morph_dot -> (In e full <-> In e children)) /\
  (dotFadeStart MT < t ->
   (forall k,
      (exists e, In e dots /\ el_class e = morph_dot /\ el_key e = Some k)
      <-> exists d, In d data /\ ubigeo (base d) = k) /\
   (forall e, el_class e <> morph_dot -> (In e dots <-> In e children))) /\
  (t <= dotFadeStart MT -> dots = children).
Proof.
  intros full dots. subst full dots.
  unfold renderFullScatterDots, renderMorphingDots.
  split; [|split; [|split]].
  - intros k. apply joinKeyed_keys; reflexivity.
  - intros e N. apply joinKeyed_other; try reflexivity; try assumption.
    discriminate.
  - intros L. apply MathFacts.leb_gt in L. rewrite L. split.
    + intros k. apply joinKeyed_keys; reflexivity.
    + intros e N. apply joinKeyed_other; try reflexivity; try assumption.
      discriminate.
  - intros L. apply MathFacts.leb_le in L. now rewrite L.
Qed.

(** X15. The outcome transition reuses the markers it finds: a marker whose
    key is the id of a datum stays, with every attribute but [cx] as it
    was, [cx] at the clamped scatter position, and a 600 ms transition
    towards the new [cy] and opacity; a marker without a datum stays too,
    with a 600 ms fade to opacity 0 that ends in its removal. *)
Theorem outcome_transition_reuses_markers (OP : Q) (children : list Element)
    (allScatterData : list ScatterDataPoint) (xScale yScale : ScaleLinear)
    (innerHeight : Q) (currentOutcome : OutcomeType) (e0 : Element) (k : Z)
    (He0 : In e0 children) (Hc : el_class e0 = morph_dot)
    (Hk : el_key e0 = Some k) :
  let out := renderOutcomeTransition OP children allScatterData xScale yScale
                                     innerHeight currentOutcome in
  match List.find (fun d => Z.eqb (ubigeo (base d)) k) allScatterData with
  | Some d =>
      exists e, In e out /\ el_key e = Some k /\ el_class e = morph_dot /\
        el_tag e = el_tag e0 /\
        el_attrs e !! "cx" = Some (ANum (finalCx xScale d)) /\
        (forall a, a <> "cx" -> el_attrs e !! a = el_attrs e0 !! a) /\
        el_transition e
        = Some (mkTransition 600
                  [("cy", ANum (outcomeCy yScale innerHeight currentOutcome d));
                   ("opacity", ANum (outcomeOpacity OP currentOutcome d))]
                  false)
  | None =>
      exists e, In e out /\ el_key e = Some k /\ el_class e = morph_dot /\
        el_tag e = el_tag e0 /\ el_attrs e = el_attrs e0 /\
        el_transition e = Some (mkTransition 600 [("opacity", ANum 0)] true)
  end.
Proof.
  intros out. subst out. unfold renderOutcomeTransition, joinKeyed.
  destruct (List.find _ allScatterData) as [d|] eqn:F.
  - eexists. split.
    + apply in_app_iff. left. apply in_flat_map. exists e0.
      split; [exact He0|]. rewrite Hc, Hk. simpl. rewrite F. now left.
    + repeat split; try assumption.
      * unfold transition, attr. cbn [el_attrs]. apply lookup_insert_eq.
      * intros a Ha. unfold transition, attr, style. cbn [el_attrs].
        now apply lookup_insert_ne.
  - eexists. split.
    + apply in_app_iff. left. apply in_flat_map. exists e0.
      split; [exact He0|]. rewrite Hc, Hk. simpl. rewrite F. now left.
    + repeat split; assumption.
Qed.

Lemma outcome_transition_reuses_markers_witness :
  let e0 := attr "cy" (ANum 100)
              (newElement "circle" morph_dot (Some 7%Z)) in
  exists e,
    In e (renderOutcomeTransition (7 # 10) [e0]
            [allScatterPoint Sample.d7] (createXScale 610) Sample.yScale 430
            Consumption) /\
    el_attrs e !! "cy" = Some (ANum 100) /\
    el_transition e
    = Some (mkTransition 600
              [("cy", ANum (430 / 2)); ("opacity", ANum 0)] false).
Proof.
  intros e0.
  destruct (outcome_transition_reuses_markers (7 # 10) [e0]
              [allScatterPoint Sample.d7] (createXScale 610) Sample.yScale 430
              Consumption e0 7 ltac:(now left) eq_refl eq_refl)
    as (e & H & _ & _ & _ & _ & A & T).
  exists e. split; [exact H|]. split; [|exact T].
  rewrite A by discriminate. reflexivity.
Defined.

(** X16. [renderFadingDistricts] leaves exactly one fading path per district
    of the merged table whose id is not among the scatter ids, whatever
    fading paths were there before; their opacity is
    [max 0 (0.5 - 0.8 * eased)]: at most 0.5 for a non-negative [eased], and
    0 once [eased] has reached 5/8. *)
Theorem fading_districts_layer (children : list Element)
    (projection : Projection) (mergedData : list MergedDistrictData)
    (scatterUbigeos : gset Z) (eased : Q) (He : 0 <= eased) :
  let out := renderFadingDistricts children projection mergedData
                                   scatterUbigeos eased in
  List.length (ofClass fading_district out)
  = List.length
      (List.filter (fun d => negb (bool_decide (ubigeo d ∈ scatterUbigeos)))
                   mergedData) /\
  (forall e, In e out -> el_class e = fading_district ->
     exists d op,
       In d mergedData /\ (ubigeo d ∉ scatterUbigeos) /\
       el_attrs e !! "opacity" = Some (ANum op) /\
       0 <= op <= 1 # 2 /\ (5 # 8 <= eased -> op == 0)).
Proof.
  intros out. subst out. unfold renderFadingDistricts. split.
  - apply joinIndexed_count; reflexivity.
  - intros e H C.
    apply joinIndexed_In_class in H; [|exact C].
    destruct H as (d & Hd & H). apply filter_In in Hd. destruct Hd as [Hd N].
    apply negb_true_iff, bool_decide_eq_false in N.
    exists d, (Math.max 0 ((1 # 2) - eased * (8 # 10))).
    split; [exact Hd|]. split; [exact N|]. split.
    + destruct H as [->|(e1 & _ & ->)];
        unfold attr; cbn [el_attrs]; apply lookup_insert_eq.
    + destruct (MathFacts.max_spec 0 ((1 # 2) - eased * (8 # 10)))
        as [[? ->]|[? ->]]; repeat split; try lra.
Qed.

Lemma fading_districts_layer_witness :
  List.length
    (ofClass fading_district
       (renderFadingDistricts [] Sample.outside [Sample.d7; Sample.d9]
                              {[ 7%Z ]} (1 # 2)))
  = 1%nat.
Proof.
  destruct (fading_districts_layer [] Sample.outside [Sample.d7; Sample.d9]
              {[ 7%Z ]} (1 # 2) ltac:(discriminate)) as [L _].
  rewrite L. reflexivity.
Defined.

(** ** The morphing geometry *)

Lemma Forall2_map_self {A : Type} (R : A -> A -> Prop) (f : A -> A) l :
  (forall x, In x l -> R (f x) x) -> Forall2 R (List.map f l) l.
Proof.
  induction l as [|a l IH]; intros H; simpl; constructor.
  - apply H. now left.
  - apply IH. intros x Hx. apply H. now right.
Qed.

(** X17. The morphing polygon of a district whose centroid and at least
    three vertices project: with an eased progress of 0 it is the projected
    polygon itself, with an eased progress of 1 every vertex has collapsed
    onto the scatter coordinate of the district; with fewer than three
    projected vertices it is the empty path. *)
Theorem morphing_district_path_ends
    (sqrt : Q -> Q) (atan2 : Q -> Q -> Q) (cos sin : Q -> Q)
    (projection : Projection) (xScale yScale : ScaleLinear)
    (d : ScatterDataPoint) (c : Q * Q) (pts : list (Q * Q))
    (Hc : projection (centroidLon (base d), centroidLat (base d)) = Some c)
    (Hp : omap (fun p : Vertex => projection (snd p, fst p)) (polygon (base d))
          = pts) :
  ((3 <= List.length pts)%nat ->
   (forall e, e == 0 ->
      exists coords,
        morphingDistrictPath sqrt atan2 cos sin projection xScale yScale e d
        = MorphedPath coords /\
        Forall2 samePoint coords pts) /\
   (forall e, e == 1 ->
      exists coords,
        morphingDistrictPath sqrt atan2 cos sin projection xScale yScale e d
        = MorphedPath coords /\
        List.length coords = List.length pts /\
        Forall (fun pt => samePoint pt (scale_apply xScale (scatterX d),
                                        scale_apply yScale (scatterY d)))
               coords)) /\
  ((List.length pts < 3)%nat ->
   forall e,
     morphingDistrictPath sqrt atan2 cos sin projection xScale yScale e d
     = EmptyPath).
Proof.
  split.
  - intros L. apply Nat.ltb_ge in L. split; intros e He;
      unfold morphingDistrictPath, morphingDistrictCenter;
      rewrite Hc, Hp, L; cbv zeta; eexists; (split; [reflexivity|]).
    + apply Forall2_map_self. intros pt _. unfold samePoint. cbn [fst snd].
      split; rewrite He; ring.
    + split; [apply length_map|].
      apply Forall_forall. intros pt H. apply in_map_iff in H.
      destruct H as (x & <- & _). unfold samePoint. cbn [fst snd].
      split; rewrite He; ring.
  - intros L e. apply Nat.ltb_lt in L.
    unfold morphingDistrictPath, morphingDistrictCenter.
    now rewrite Hc, Hp, L.
Qed.

Lemma morphing_district_path_ends_witness :
  let inside : Projection := fun p => Some (fst p * 10, snd p * 10) in
  exists coords,
    morphingDistrictPath Sample.zero1 Sample.zero2 Sample.zero1 Sample.zero1
      inside (createXScale 610) Sample.yScale 0 (scatterPoint Stunting Sample.d7)
    = MorphedPath coords /\
    Forall2 samePoint coords [(0, 0); (10, 0); (10, 10)].
Proof.
  intros inside.
  destruct (morphing_district_path_ends Sample.zero1 Sample.zero2 Sample.zero1
              Sample.zero1 inside (createXScale 610) Sample.yScale
              (scatterPoint Stunting Sample.d7) (30, 40)
              [(0 * 10, 0 * 10); (1 * 10, 0 * 10); (1 * 10, 1 * 10)]
              eq_refl eq_refl) as [[Z _] _].
  - simpl. lia.
  - destruct (Z 0 ltac:(reflexivity)) as (coords & E & F).
    exists coords. split; [exact E|].
    clear E. revert F. generalize coords. intros l F.
    inversion F as [|a b l1 l1' [A1 A2] F1]; subst.
    inversion F1 as [|a2 b2 l2 l2' [B1 B2] F2]; subst.
    inversion F2 as [|a3 b3 l3 l3' [C1 C2] F3]; subst.
    inversion F3; subst.
    repeat constructor; cbn [fst snd] in *;
      first [rewrite A1|rewrite A2|rewrite B1|rewrite B2|rewrite C1|rewrite C2];
      reflexivity.
Defined.

Lemma easeInOutQuad_at_1 t : t == 1 -> easeInOutQuad t == 1.
Proof.
  intros H. rewrite easeInOutQuad_high by lra. rewrite H. ring.
Qed.

(** X18. While the dots fade in ([dotFadeStart < morphT], with
    [dotFadeStart < dotFadeEnd] and a non-negative [OPACITY.dot]) every
    marker has radius [5 * eased] and an opacity between 0 and
    [OPACITY.dot], the full [OPACITY.dot] once [morphT] has reached
    [dotFadeEnd]; and at [morphT = 1] its radius and centre are those the
    full-scatter path gives it, whatever the projection yields. *)
Theorem morphing_dot_fade_in (MT : MorphTiming) (OP : Q)
    (children : list Element) (projection : Projection)
    (data : list ScatterDataPoint) (xScale yScale : ScaleLinear) (t : Q)
    (Hf : dotFadeStart MT < dotFadeEnd MT) (Ht : dotFadeStart MT < t)
    (Hop : 0 <= OP) :
  let eased := easeInOutQuad t in
  forall e,
    In e (renderMorphingDots MT OP children projection data xScale yScale
                             t eased) ->
    el_class e = morph_dot ->
    exists d r op,
      In d data /\
      el_attrs e !! "r" = Some (ANum r) /\ r == 5 * eased /\
      el_attrs e !! "opacity" = Some (ANum op) /\
      0 <= op <= OP /\ (dotFadeEnd MT <= t -> op == OP) /\
      el_attrs e !! "cx" = Some (ANum (morphingDotCx projection xScale eased d)) /\
      el_attrs e !! "cy" = Some (ANum (morphingDotCy projection yScale eased d)) /\
      (t == 1 ->
       r == 5 /\
       morphingDotCx projection xScale eased d == finalCx xScale d /\
       morphingDotCy projection yScale eased d == finalCy yScale d).
Proof.
  intros eased e H C. unfold renderMorphingDots in H.
  apply MathFacts.leb_gt in Ht. rewrite Ht in H.
  apply MathFacts.leb_gt in Ht.
  set (raw := (t - dotFadeStart MT) / (dotFadeEnd MT - dotFadeStart MT)) in *.
  assert (R0 : 0 <= raw) by (apply Qle_shift_div_l; lra).
  assert (R1 : dotFadeEnd MT <= t -> 1 <= raw)
    by (intros L; apply Qle_shift_div_l; lra).
  assert (O : 0 <= Math.min 1 raw * OP <= OP /\
              (dotFadeEnd MT <= t -> Math.min 1 raw * OP == OP)).
  { destruct (MathFacts.min_spec 1 raw) as [[? ->]|[? ->]].
    - split; [lra|]. intros _. ring.
    - assert (0 <= raw * OP) by (apply Qmult_le_0_compat; lra).
      assert (0 <= (1 - raw) * OP) by (apply Qmult_le_0_compat; lra).
      assert (E : OP - raw * OP == (1 - raw) * OP) by ring.
      split; [lra|]. intros L. apply R1 in L. lra. }
  assert (K : forall d,
             t == 1 ->
             5 * eased == 5 /\
             morphingDotCx projection xScale eased d == finalCx xScale d /\
             morphingDotCy projection yScale eased d == finalCy yScale d).
  { intros d T. pose proof (easeInOutQuad_at_1 t T) as E. fold eased in E.
    split; [rewrite E; ring|].
    unfold morphingDotCx, morphingDotCy, finalCx, finalCy.
    split; apply clampTo_proper; rewrite E; ring. }
  apply joinKeyed_In in H.
  destruct H as [[_ N]|[(d & e0 & Hd & _ & ->)|[(e0 & _ & X)|(d & Hd & ->)]]].
  - congruence.
  - exists d, (5 * eased), (Math.min 1 raw * OP).
    split; [exact Hd|]. split; [read_attr|]. split; [reflexivity|].
    split; [read_attr|]. split; [apply O|]. split; [apply O|].
    split; [read_attr|]. split; [read_attr|]. apply K.
  - discriminate X.
  - exists d, (5 * eased), (Math.min 1 raw * OP).
    split; [exact Hd|]. split; [read_attr|]. split; [reflexivity|].
    split; [read_attr|]. split; [apply O|]. split; [apply O|].
    split; [read_attr|]. split; [read_attr|]. apply K.
Qed.

Lemma morphing_dot_fade_in_witness :
  exists e op,
    In e (renderMorphingDots Sample.timing (7 # 10) [] Sample.outside
            [scatterPoint Stunting Sample.d7] (createXScale 610) Sample.yScale
            (9 # 10) (easeInOutQuad (9 # 10))) /\
    el_attrs e !! "opacity" = Some (ANum op) /\ op == 7 # 10.
Proof.
  eexists. 
  assert (H : In (hd (newElement "circle" morph_dot None)
                    (renderMorphingDots Sample.timing (7 # 10) []
                       Sample.outside [scatterPoint Stunting Sample.d7]
                       (createXScale 610) Sample.yScale (9 # 10)
                       (easeInOutQuad (9 # 10))))
                (renderMorphingDots Sample.timing (7 # 10) [] Sample.outside
                   [scatterPoint Stunting Sample.d7] (createXScale 610)
                   Sample.yScale (9 # 10) (easeInOutQuad (9 # 10))))
    by (left; reflexivity).
  destruct (morphing_dot_fade_in Sample.timing (7 # 10) [] Sample.outside
              [scatterPoint Stunting Sample.d7] (createXScale 610)
              Sample.yScale (9 # 10) ltac:(reflexivity) ltac:(reflexivity)
              ltac:(discriminate) _ H eq_refl)
    as (d & r & op & _ & _ & _ & A & _ & F & _).
  exists op. split; [exact H|]. split; [exact A|]. apply F. discriminate.
Defined.

(** ** The refs of the render effect *)

Section EffectRefs.

Variable MORPH_TIMING : MorphTiming.
Variable OPACITY_dot : Q.
Variable DEFAULT_MARGIN : Margin.
Variable Math_sqrt : Q -> Q.
Variable Math_atan2 : Q -> Q -> Q.
Variable Math_cos : Q -> Q.
Variable Math_sin : Q -> Q.
Variable createProjection :
  list MergedDistrictData -> Q -> Q -> Q -> Projection.
Variable createYScales :
  list ScatterDataPoint -> Q -> OutcomeType -> ScaleLinear.
Variable calculateFittedLines :
  list ScatterDataPoint -> OutcomeType -> bool * bool.

Let effect := renderEffect MORPH_TIMING OPACITY_dot DEFAULT_MARGIN Math_sqrt
                Math_atan2 Math_cos Math_sin createProjection createYScales
                calculateFittedLines.

Lemma OutcomeType_eqb_eq a b : OutcomeType_eqb a b = true <-> a = b.
Proof. destruct a, b; simpl; split; congruence. Qed.

Lemma ScatterPhase_eqb_eq a b : ScatterPhase_eqb a b = true <-> a = b.
Proof. destruct a, b; simpl; split; congruence. Qed.

(** X19. The edge flags fire once per change.  After a frame the outcome
    ref holds that frame's outcome, so the next frame is an outcome
    transition exactly when it is at full scatter with another outcome;
    the phase ref is written only at full scatter, so after a frame at full
    scatter the next one is a phase transition exactly when it is at full
    scatter with another phase, and a frame below full scatter leaves the
    phase ref alone. *)
Theorem transition_flags_fire_once (fr fr' : Frame) (st : RenderState) :
  prevOutcomeRef (effect fr st) = Some (currentOutcome fr) /\
  (isOutcomeOnlyTransition fr' (effect fr st) = true <->
   1 <= currentProgress fr' /\ currentOutcome fr' <> currentOutcome fr) /\
  (1 <= currentProgress fr ->
   (isPhaseTransition fr' (effect fr st) = true <->
    1 <= currentProgress fr' /\ scatterPhase fr' <> scatterPhase fr)) /\
  (currentProgress fr < 1 ->
   prevScatterPhaseRef (effect fr st) = prevScatterPhaseRef st).
Proof.
  subst effect. cbv beta.
  split; [reflexivity|]. split; [|split].
  - unfold isOutcomeOnlyTransition. cbn [prevOutcomeRef renderEffect refDiffers].
    rewrite andb_true_iff, MathFacts.geb_ge, negb_true_iff.
    split; intros [G N]; (split; [exact G|]).
    + intros E. rewrite E in N.
      assert (X : OutcomeType_eqb (currentOutcome fr) (currentOutcome fr) = true)
        by now apply OutcomeType_eqb_eq.
      congruence.
    + destruct (OutcomeType_eqb (currentOutcome fr) (currentOutcome fr')) eqn:X;
        [|reflexivity].
      apply OutcomeType_eqb_eq in X. congruence.
  - intros L. apply MathFacts.geb_ge in L.
    unfold isPhaseTransition. cbn [prevScatterPhaseRef renderEffect].
    rewrite L. cbn [refDiffers].
    rewrite andb_true_iff, MathFacts.geb_ge, negb_true_iff.
    split; intros [G N]; (split; [exact G|]).
    + intros E. rewrite E in N.
      assert (X : ScatterPhase_eqb (scatterPhase fr) (scatterPhase fr) = true)
        by now apply ScatterPhase_eqb_eq.
      congruence.
    + destruct (ScatterPhase_eqb (scatterPhase fr) (scatterPhase fr')) eqn:X;
        [|reflexivity].
      apply ScatterPhase_eqb_eq in X. congruence.
  - intros L. cbn [prevScatterPhaseRef renderEffect].
    destruct (Math.geb (currentProgress fr) 1) eqn:G; [|reflexivity].
    apply MathFacts.geb_ge in G. lra.
Qed.

(** X20. Below full scatter a frame is rebuilt from nothing: its scene does
    not depend on the scene or the refs left by earlier frames. *)
Theorem frame_below_full_scatter_rebuilt (fr : Frame) (st st' : RenderState)
    (Ht : currentProgress fr < 1) :
  svg (effect fr st) = svg (effect fr st').
Proof.
  subst effect. cbv beta.
  assert (G : Math.geb (currentProgress fr) 1 = false).
  { destruct (Math.geb (currentProgress fr) 1) eqn:G; [|reflexivity].
    apply MathFacts.geb_ge in G. lra. }
  unfold renderEffect, isOutcomeOnlyTransition, isPhaseTransition.
  rewrite G. reflexivity.
Qed.

End EffectRefs.

Lemma frame_below_full_scatter_rebuilt_witness :
  svg (renderEffect Sample.timing (7 # 10) Sample.margin Sample.zero1
         Sample.zero2 Sample.zero1 Sample.zero1 (fun _ _ _ _ => Sample.outside)
         (fun _ h _ => mkScale (0, 100) (h, 0) false) (fun _ _ => (true, true))
         Sample.frame
         (mkRenderState Sample.scene (Some Roads) (Some Effect)))
  = Sample.scene.
Proof.
  apply (frame_below_full_scatter_rebuilt Sample.timing (7 # 10) Sample.margin
           Sample.zero1 Sample.zero2 Sample.zero1 Sample.zero1
           (fun _ _ _ _ => Sample.outside)
           (fun _ h _ => mkScale (0, 100) (h, 0) false)
           (fun _ _ => (true, true)) Sample.frame).
  reflexivity.
Defined.

(** ** ScrollyStory *)

Module ScrollyStoryFacts.
Import ScrollyStory.

Lemma findIndexFrom_none {A : Type} (f : A -> bool) l : forall i,
  (forall x, In x l -> f x = false) -> findIndexFrom f l i = (-1)%Z.
Proof.
  induction l as [|a l IH]; intros i H; simpl; [reflexivity|].
  rewrite (H a) by now left. apply IH. intros x Hx. apply H. now right.
Qed.

Lemma consecutive_nth {A : Type} (P : A -> A -> bool) l :
  consecutive P l = true ->
  forall i a b, nth_error l i = Some a -> nth_error l (S i) = Some b ->
                P a b = true.
Proof.
  induction l as [|x l IH]; intros H i a b Ha Hb; [destruct i; discriminate|].
  destruct l as [|y l]; [destruct i; simpl in Hb; try discriminate;
                         destruct i; discriminate|].
  cbn [consecutive] in H. apply andb_true_iff in H. destruct H as [H1 H2].
  destruct i as [|i].
  - simpl in Ha, Hb. injection Ha as <-. injection Hb as <-. exact H1.
  - apply (IH H2 i a b); assumption.
Qed.

(** X21. Entering a step selects it: for every step of the table,
    [onStepEnter] sets the index at which [currentStep] is that very step
    (the ids are pairwise distinct); data with an unknown id leaves the
    index as it is; and an index outside the table shows the first step. *)
Theorem step_enter_selects :
  (forall s j, In s mainSteps -> currentStep (onStepEnter s j) = Some s) /\
  (forall data j,
     (forall s, In s mainSteps -> id s <> id data) ->
     onStepEnter data j = j) /\
  (forall j, (j < 0 \/ 12 <= j)%Z -> currentStep j = Some step_context).
Proof.
  split; [|split].
  - intros s j H. unfold mainSteps in H. cbn [In] in H.
    repeat (destruct H as [<-|H]; [reflexivity|]). destruct H.
  - intros data j H. unfold onStepEnter, findIndex.
    rewrite findIndexFrom_none; [reflexivity|].
    intros s Hs. apply String.eqb_neq. now apply H.
  - intros j H. unfold currentStep, stepAt.
    destruct (Z.ltb_spec j 0) as [L|L]; [reflexivity|].
    destruct H as [H|H]; [lia|].
    assert (N : nth_error mainSteps (Z.to_nat j) = None).
    { apply nth_error_None. change (List.length mainSteps) with 12%nat. lia. }
    now rewrite N.
Qed.

Lemma renderPath_outcome_transition MT fr st :
  mt_start MT < mt_end MT -> mt_end MT == 1 ->
  1 <= currentProgress fr ->
  isOutcomeOnlyTransition fr st = true ->
  renderPath MT fr st = OutcomeTransitionPath.
Proof.
  intros Hs He L O. unfold renderPath.
  assert (M : Math.ltb (currentProgress fr) (3 # 10) = false)
    by (apply MathFacts.ltb_ge; lra).
  assert (G : Math.geb (morphT MT (currentProgress fr)) 1 = true)
    by (apply (morphT_ge1 MT Hs); lra).
  unfold morphBranch. now rewrite M, O, G.
Qed.

(** The check run over consecutive steps: progress does not go back, and a
    change of outcome or of scatter phase joins two full-scatter steps. *)
Lemma narrative_consecutive :
  consecutive
    (fun a b =>
       Qle_bool (morphProgress a) (morphProgress b) &&
       (if OutcomeType_eqb (outcome a) (outcome b)
           && ScatterPhase_eqb (scatterPhase a) (scatterPhase b)
        then true
        else Qeq_bool (morphProgress a) 1 && Qeq_bool (morphProgress b) 1))
    mainSteps = true.
Proof. vm_compute. reflexivity. Qed.

End ScrollyStoryFacts.

(** X22. Along the narrative the morph progress never goes back, and the
    outcome or the scatter phase changes only between two steps at full
    scatter; so (with [MORPH_TIMING.start < end = 1]) the frame that shows
    a new outcome once the progress is at its target is rendered by the
    outcome transition: the effect ends with [renderOutcomeTransition] over
    all scatter points, followed by the fitted lines. *)
Theorem narrative_changes_at_full_scatter
    (MT : MorphTiming) (OP : Q) (margin : Margin)
    (sqrt : Q -> Q) (atan2 : Q -> Q -> Q) (cos sin : Q -> Q)
    (createProjection : list MergedDistrictData -> Q -> Q -> Q -> Projection)
    (createYScales : list ScatterDataPoint -> Q -> OutcomeType -> ScaleLinear)
    (calculateFittedLines : list ScatterDataPoint -> OutcomeType -> bool * bool)
    (Hs : mt_start MT < mt_end MT) (He : mt_end MT == 1)
    (i : nat) (s s' : ScrollyStory.StepData)
    (Hi : nth_error ScrollyStory.mainSteps i = Some s)
    (Hi' : nth_error ScrollyStory.mainSteps (S i) = Some s') :
  ScrollyStory.morphProgress s <= ScrollyStory.morphProgress s' /\
  (ScrollyStory.outcome s <> ScrollyStory.outcome s' \/
   ScrollyStory.scatterPhase s <> ScrollyStory.scatterPhase s' ->
   ScrollyStory.morphProgress s == 1 /\ ScrollyStory.morphProgress s' == 1) /\
  (ScrollyStory.outcome s <> ScrollyStory.outcome s' ->
   forall fr st,
     currentProgress fr = ScrollyStory.morphProgress s' ->
     currentOutcome fr = ScrollyStory.outcome s' ->
     prevOutcomeRef st = Some (ScrollyStory.outcome s) ->
     let scatterData := filterScatterData (mergedData fr) (currentOutcome fr) in
     let allScatterData := getAllScatterData (mergedData fr) in
     renderPath MT fr st = OutcomeTransitionPath /\
     svg (renderEffect MT OP margin sqrt atan2 cos sin createProjection
            createYScales calculateFittedLines fr st)
     = renderFittedLines
         (overMainGroup
            (fun g =>
               renderOutcomeTransition OP g allScatterData
                 (createXScale (innerWidth fr))
                 (createYScales allScatterData (innerHeight fr)
                                (currentOutcome fr))
                 (innerHeight fr) (currentOutcome fr))
            (sceneBeforeDispatch margin fr st))
         (fst (calculateFittedLines scatterData (currentOutcome fr)))
         (snd (calculateFittedLines scatterData (currentOutcome fr)))
         (scatterPhase fr) margin).
Proof.
  pose proof (ScrollyStoryFacts.consecutive_nth _ _
                ScrollyStoryFacts.narrative_consecutive i s s' Hi Hi') as C.
  cbv beta in C. apply andb_true_iff in C. destruct C as [C1 C2].
  apply Qle_bool_iff in C1.
  assert (F : ScrollyStory.outcome s <> ScrollyStory.outcome s' \/
              ScrollyStory.scatterPhase s <> ScrollyStory.scatterPhase s' ->
              ScrollyStory.morphProgress s == 1 /\
              ScrollyStory.morphProgress s' == 1).
  { intros N.
    destruct (OutcomeType_eqb (ScrollyStory.outcome s) (ScrollyStory.outcome s')
              && ScatterPhase_eqb (ScrollyStory.scatterPhase s)
                                  (ScrollyStory.scatterPhase s')) eqn:E.
    - apply andb_true_iff in E. destruct E as [E1 E2].
      apply OutcomeType_eqb_eq in E1. apply ScatterPhase_eqb_eq in E2. tauto.
    - apply andb_true_iff in C2. destruct C2 as [A B].
      apply Qeq_bool_iff in A. apply Qeq_bool_iff in B. tauto. }
  split; [exact C1|]. split; [exact F|].
  intros N fr st Ht Ho Hp scatterData allScatterData.
  destruct (F (or_introl N)) as [_ F2].
  assert (L : 1 <= currentProgress fr) by (rewrite Ht; lra).
  assert (O : isOutcomeOnlyTransition fr st = true).
  { unfold isOutcomeOnlyTransition. rewrite Ho, Hp. cbn [refDiffers].
    apply andb_true_iff. split; [now apply MathFacts.geb_ge|].
    apply negb_true_iff.
    destruct (OutcomeType_eqb (ScrollyStory.outcome s)
                              (ScrollyStory.outcome s')) eqn:E; [|reflexivity].
    apply OutcomeType_eqb_eq in E. congruence. }
  assert (GM : Math.geb (morphT MT (currentProgress fr)) 1 = true)
    by (apply (morphT_ge1 MT Hs); lra).
  split.
  - now apply ScrollyStoryFacts.renderPath_outcome_transition.
  - rewrite renderEffect_settled by assumption. now rewrite O.
Qed.

Lemma narrative_changes_at_full_scatter_witness :
  let fr := mkFrame 1 Consumption Effect 1 [Sample.d7; Sample.d9] 610 430 in
  let st := mkRenderState [] (Some Stunting) (Some Effect) in
  let yScales := fun (_ : list ScatterDataPoint) (h : Q) (_ : OutcomeType) =>
                   mkScale (0, 100) (h, 0) false in
  mt_start Sample.timing < mt_end Sample.timing /\
  mt_end Sample.timing == 1 /\
  nth_error ScrollyStory.mainSteps 8 = Some ScrollyStory.step_stunting /\
  nth_error ScrollyStory.mainSteps 9 = Some ScrollyStory.step_consumption /\
  ScrollyStory.morphProgress ScrollyStory.step_consumption == 1 /\
  svg (renderEffect Sample.timing (7 # 10) Sample.margin Sample.zero1
         Sample.zero2 Sample.zero1 Sample.zero1 (fun _ _ _ _ => Sample.outside)
         yScales (fun _ _ => (true, true)) fr st)
  = renderFittedLines
      (overMainGroup
         (fun g =>
            renderOutcomeTransition (7 # 10) g
              (getAllScatterData (mergedData fr)) (createXScale 610)
              (yScales [] 430 Consumption) 430 Consumption)
         (sceneBeforeDispatch Sample.margin fr st))
      true true Effect Sample.margin.
Proof.
  intros fr st yScales.
  assert (Hs : mt_start Sample.timing < mt_end Sample.timing) by reflexivity.
  assert (He : mt_end Sample.timing == 1) by reflexivity.
  split; [exact Hs|]. split; [exact He|].
  split; [reflexivity|]. split; [reflexivity|].
  destruct (narrative_changes_at_full_scatter Sample.timing (7 # 10)
              Sample.margin Sample.zero1 Sample.zero2 Sample.zero1 Sample.zero1
              (fun _ _ _ _ => Sample.outside) yScales (fun _ _ => (true, true))
              Hs He 8 ScrollyStory.step_stunting ScrollyStory.step_consumption
              eq_refl eq_refl) as (_ & F & T).
  destruct (F ltac:(left; discriminate)) as [_ B].
  split; [exact B|].
  apply (T ltac:(discriminate) fr st eq_refl eq_refl eq_refl).
Defined.

(** ** colors.ts *)

Module colorFacts.
Import colorUtils.

Lemma hexValue_bound c v : hexValue c = Some v -> (v < 16)%N.
Proof.
  unfold hexValue.
  repeat match goal with
         | |- context [(?a <=? ?b)%N] => destruct (N.leb_spec a b)
         end; simpl; intros E; try discriminate; injection E as <-; lia.
Qed.

Lemma parseHexPair_bound a b v : parseHexPair a b = Some v -> (v < 256)%N.
Proof.
  unfold parseHexPair.
  destruct (hexValue a) as [x|] eqn:A; [|discriminate].
  destruct (hexValue b) as [y|] eqn:B; [|discriminate].
  apply hexValue_bound in A. apply hexValue_bound in B.
  intros H. injection H as <-. lia.
Qed.

Lemma hexValue_upper c : hexValue (capitalAscii c) = hexValue c.
Proof.
  destruct c as [[] [] [] [] [] [] [] []]; reflexivity.
Qed.

Lemma hexBody c rest :
  match String c rest with
  | String "#"%char r => r
  | _ => String c rest
  end
  = if Ascii.eqb c "#" then rest else String c rest.
Proof.
  destruct c as [[] [] [] [] [] [] [] []]; reflexivity.
Qed.

Lemma capitalAscii_hash c : Ascii.eqb (capitalAscii c) "#" = Ascii.eqb c "#".
Proof.
  destruct c as [[] [] [] [] [] [] [] []]; reflexivity.
Qed.

Lemma parseHexPair_upper a b :
  parseHexPair (capitalAscii a) (capitalAscii b) = parseHexPair a b.
Proof. unfold parseHexPair. now rewrite !hexValue_upper. Qed.

(** The part of the pattern after the optional [#]. *)
Lemma hexMatch_body hex :
  hexMatch hex
  = match (match hex with
           | String c rest => if Ascii.eqb c "#" then rest else hex
           | EmptyString => hex
           end) with
    | String a (String b (String c (String d (String e (String f EmptyString))))) =>
        match parseHexPair a b, parseHexPair c d, parseHexPair e f with
        | Some r, Some g, Some bl => Some (r, g, bl)
        | _, _, _ => None
        end
    | _ => None
    end.
Proof.
  unfold hexMatch. destruct hex as [|c rest]; [reflexivity|].
  now rewrite hexBody.
Qed.

Lemma six_upper s :
  match capitalsAscii s with
  | String a (String b (String c (String d (String e (String f EmptyString))))) =>
      match parseHexPair a b, parseHexPair c d, parseHexPair e f with
      | Some r, Some g, Some bl => Some (r, g, bl)
      | _, _, _ => None
      end
  | _ => None
  end
  = match s with
    | String a (String b (String c (String d (String e (String f EmptyString))))) =>
        match parseHexPair a b, parseHexPair c d, parseHexPair e f with
        | Some r, Some g, Some bl => Some (r, g, bl)
        | _, _, _ => None
        end
    | _ => None
    end.
Proof.
  destruct s as [|a [|b [|c [|d [|e [|f [|g s]]]]]]]; try reflexivity.
  cbn [capitalsAscii]. now rewrite !parseHexPair_upper.
Qed.

Lemma hexMatch_upper hex : hexMatch (capitalsAscii hex) = hexMatch hex.
Proof.
  rewrite !hexMatch_body. destruct hex as [|c rest]; [reflexivity|].
  cbn [capitalsAscii]. rewrite capitalAscii_hash.
  destruct (Ascii.eqb c "#").
  - apply six_upper.
  - apply (six_upper (String c rest)).
Qed.

(** X23. [hexToRgb] never fails and never yields a component above 255:
    a string the pattern does not match gives ["0, 0, 0"], the same string
    as black; the leading [#] is optional; and two strings that differ only
    in the case of their ASCII letters [a]-[z] give the same result. *)
Theorem hexToRgb_pattern :
  (forall hex r g b,
     hexMatch hex = Some (r, g, b) -> (r < 256 /\ g < 256 /\ b < 256)%N) /\
  (forall hex, hexMatch hex = None -> hexToRgb hex = hexToRgb "#000000") /\
  (forall c rest,
     c <> "#"%char ->
     hexToRgb (String "#" (String c rest)) = hexToRgb (String c rest)) /\
  (forall hex hex',
     capitalsAscii hex = capitalsAscii hex' -> hexToRgb hex = hexToRgb hex').
Proof.
  split; [|split; [|split]].
  - intros hex r g b. rewrite hexMatch_body.
    destruct (match hex with
              | String c rest => if Ascii.eqb c "#" then rest else hex
              | EmptyString => hex
              end) as [|c1 [|c2 [|c3 [|c4 [|c5 [|c6 [|c7 s]]]]]]];
      try discriminate.
    destruct (parseHexPair c1 c2) as [x|] eqn:X; [|discriminate].
    destruct (parseHexPair c3 c4) as [y|] eqn:Y; [|discriminate].
    destruct (parseHexPair c5 c6) as [z|] eqn:Z; [|discriminate].
    intros H. injection H as <- <- <-.
    apply parseHexPair_bound in X. apply parseHexPair_bound in Y.
    apply parseHexPair_bound in Z. tauto.
  - intros hex H. unfold hexToRgb at 1. now rewrite H.
  - intros c rest N. unfold hexToRgb. rewrite !hexMatch_body.
    assert (E : Ascii.eqb c "#" = false) by now apply Ascii.eqb_neq.
    cbn [Ascii.eqb Bool.eqb]. rewrite E. reflexivity.
  - intros hex hex' E. unfold hexToRgb.
    now rewrite <- (hexMatch_upper hex), E, hexMatch_upper.
Qed.

Example hexToRgb_palette :
  hexToRgb "#1a1e28" = "26, 30, 40" /\ hexToRgb "a0aec0" = "160, 174, 192" /\
  hexToRgb "#F8F4E8" = "248, 244, 232" /\ hexToRgb "#fff" = "0, 0, 0".
Proof. repeat split. Qed.

(** The morph renderer colours by the inside flag exactly as
    [getMitaColor] prescribes: a morphing polygon has the fill and the
    stroke of its district's inside flag, a full-scatter marker its fill. *)
Theorem renderer_colours (OP : Q) (sqrt : Q -> Q) (atan2 : Q -> Q -> Q)
    (cos sin : Q -> Q) (children : list Element) (projection : Projection)
    (data : list ScatterDataPoint) (xScale yScale : ScaleLinear) (eased : Q) :
  (forall e,
     In e (renderMorphingDistricts OP sqrt atan2 cos sin children projection
             data xScale yScale eased) ->
     el_class e = morphing_district ->
     exists d, In d data /\
       el_attrs e !! "fill"
       = Some (AStr (getMitaColor (isInside (base d)) VFill)) /\
       el_attrs e !! "stroke"
       = Some (AStr (getMitaColor (isInside (base d)) VStroke))) /\
  (forall e,
     In e (renderFullScatterDots OP children data xScale yScale) ->
     el_class e = morph_dot ->
     exists d, In d data /\
       el_attrs e !! "fill"
       = Some (AStr (getMitaColor (isInside (base d)) VFill))).
Proof.
  assert (F : forall m, fillOf m = getMitaColor (isInside m) VFill)
    by (intros m; unfold fillOf, getMitaColor; destruct (isInside m); reflexivity).
  assert (S : forall b : bool,
             (if b then colors.mitaStroke else colors.nonmita)
             = getMitaColor b VStroke) by (intros []; reflexivity).
  split; intros e H C.
  - unfold renderMorphingDistricts in H. apply joinKeyed_In in H.
    destruct H as [[_ N]|[(d & e0 & Hd & _ & ->)|[(e0 & _ & X)|(d & Hd & ->)]]];
      [congruence| |discriminate X|];
      exists d; (split; [exact Hd|]); rewrite <- F, <- S; split; read_attr.
  - unfold renderFullScatterDots in H. apply joinKeyed_In in H.
    destruct H as [[_ N]|[(d & e0 & Hd & _ & ->)|[(e0 & _ & X)|(d & Hd & ->)]]];
      [congruence| |discriminate X|];
      exists d; (split; [exact Hd|]); rewrite <- F; read_attr.
Qed.

End colorFacts.

(** ** Rendering the same frame again *)

Lemma find_unique {A : Type} (key : A -> Z) l d :
  NoDup (List.map key l) -> In d l ->
  List.find (fun d' => Z.eqb (key d') (key d)) l = Some d.
Proof.
  induction l as [|a l IH]; intros N H; [destruct H|].
  simpl in N. inversion N as [|? ? Hn Hl]; subst. simpl.
  destruct H as [->|H].
  - now rewrite Z.eqb_refl.
  - destruct (Z.eqb_spec (key a) (key d)) as [E|E]; [|now apply IH].
    exfalso. apply Hn. rewrite E. now apply in_map.
Qed.

Lemma flat_map_self {A : Type} (f : A -> list A) l :
  (forall x, In x l -> f x = [x]) -> flat_map f l = l.
Proof.
  induction l as [|a l IH]; intros H; simpl; [reflexivity|].
  rewrite (H a) by now left. simpl. f_equal. apply IH.
  intros x Hx. apply H. now right.
Qed.

Lemma filter_nothing {A : Type} (f : A -> bool) l :
  (forall x, In x l -> f x = false) -> List.filter f l = [].
Proof.
  induction l as [|a l IH]; intros H; simpl; [reflexivity|].
  rewrite (H a) by now left. apply IH. intros x Hx. apply H. now right.
Qed.

Section JoinTwice.

Context {D : Type}.
Variable cls : Class.
Variable key : D -> Z.
Variable enter : D -> Element.
Variable update : D -> Element -> Element.

Hypothesis enter_class : forall d, el_class (enter d) = cls.
Hypothesis enter_key : forall d, el_key (enter d) = Some (key d).
Hypothesis update_class : forall d e, el_class (update d e) = el_class e.
Hypothesis update_key : forall d e, el_key (update d e) = el_key e.
Hypothesis update_update : forall d e, update d (update d e) = update d e.
Hypothesis update_enter : forall d, update d (enter d) = enter d.

Lemma joinKeyed_twice data children :
  NoDup (List.map key data) ->
  joinKeyed cls key enter update exitRemove data
    (joinKeyed cls key enter update exitRemove data children)
  = joinKeyed cls key enter update exitRemove data children.
Proof.
  intros N.
  set (out := joinKeyed cls key enter update exitRemove data children).
  unfold joinKeyed at 1. fold out.
  rewrite (filter_nothing _ data), app_nil_r.
  - apply flat_map_self. intros e He.
    destruct (Class_eqb (el_class e) cls) eqn:C; [|reflexivity].
    apply Class_eqb_eq in C.
    apply joinKeyed_In_class in He; [|exact C].
    destruct He as [(d & e0 & Hd & _ & _ & K & -> & F)
                   |[(e0 & _ & _ & X)|(d & Hd & -> & _)]].
    + rewrite update_key, K. simpl. rewrite F. now rewrite update_update.
    + discriminate X.
    + rewrite enter_key. simpl. rewrite (find_unique key data d N Hd).
      now rewrite update_enter.
  - intros d Hd. apply negb_false_iff. apply existsb_exists.
    assert (X : exists e, In e out /\ el_class e = cls /\
                          el_key e = Some (key d)).
    { subst out. apply joinKeyed_keys; auto. eauto. }
    destruct X as (e & He & C & K).
    exists e. split; [exact He|]. apply andb_true_iff.
    split; [now apply Class_eqb_eq|]. unfold hasKey. rewrite K.
    apply Z.eqb_refl.
Qed.

End JoinTwice.

Lemma attr_absorb name v e :
  el_attrs e !! name = Some v -> attr name v e = e.
Proof.
  intros H. destruct e as [tag cls k attrs sty tr]. unfold attr.
  cbn [el_tag el_class el_key el_attrs el_style el_transition] in *.
  f_equal. now apply insert_id.
Qed.

Lemma style_absorb name v e :
  el_style e !! name = Some v -> style name v e = e.
Proof.
  intros H. destruct e as [tag cls k attrs sty tr]. unfold style.
  cbn [el_tag el_class el_key el_attrs el_style el_transition] in *.
  f_equal. now apply insert_id.
Qed.

(** Setting the attributes and the style of a marker a second time
    changes nothing. *)
Lemma marker_attrs_twice c o f r y x (e : Element) :
  let set e :=
    style "cursor" c
      (attr "opacity" o (attr "fill" f (attr "r" r (attr "cy" y (attr "cx" x e)))))
  in set (set e) = set e.
Proof.
  cbv beta zeta.
  set (once := style "cursor" c
                 (attr "opacity" o
                    (attr "fill" f (attr "r" r (attr "cy" y (attr "cx" x e)))))).
  rewrite (attr_absorb "cx" x once) by (subst once; read_attr).
  rewrite (attr_absorb "cy" y once) by (subst once; read_attr).
  rewrite (attr_absorb "r" r once) by (subst once; read_attr).
  rewrite (attr_absorb "fill" f once) by (subst once; read_attr).
  rewrite (attr_absorb "opacity" o once) by (subst once; read_attr).
  apply style_absorb. subst once. unfold style. cbn [el_style].
  apply lookup_insert_eq.
Qed.

Lemma path_attrs_twice o w s f p (e : Element) :
  let set e :=
    attr "opacity" o
      (attr "stroke-width" w (attr "stroke" s (attr "fill" f (attr "d" p e))))
  in set (set e) = set e.
Proof.
  cbv beta zeta.
  set (once := attr "opacity" o
                 (attr "stroke-width" w
                    (attr "stroke" s (attr "fill" f (attr "d" p e))))).
  rewrite (attr_absorb "d" p once) by (subst once; read_attr).
  rewrite (attr_absorb "fill" f once) by (subst once; read_attr).
  rewrite (attr_absorb "stroke" s once) by (subst once; read_attr).
  rewrite (attr_absorb "stroke-width" w once) by (subst once; read_attr).
  apply attr_absorb. subst once. read_attr.
Qed.

(** X24. Rendering again with the same arguments changes nothing: with
    pairwise distinct district ids in the scatter data, a second pass of
    [renderFullScatterDots], of [renderMorphingDots] or of
    [renderMorphingDistricts] over its own result returns that result. *)
Theorem marker_render_idempotent (MT : MorphTiming) (OP : Q)
    (sqrt : Q -> Q) (atan2 : Q -> Q -> Q) (cos sin : Q -> Q)
    (children : list Element) (projection : Projection)
    (data : list ScatterDataPoint) (xScale yScale : ScaleLinear) (t eased : Q)
    (Hd : NoDup (List.map (fun d => ubigeo (base d)) data)) :
  renderFullScatterDots OP
    (renderFullScatterDots OP children data xScale yScale) data xScale yScale
  = renderFullScatterDots OP children data xScale yScale /\
  renderMorphingDots MT OP
    (renderMorphingDots MT OP children projection data xScale yScale t eased)
    projection data xScale yScale t eased
  = renderMorphingDots MT OP children projection data xScale yScale t eased /\
  renderMorphingDistricts OP sqrt atan2 cos sin
    (renderMorphingDistricts OP sqrt atan2 cos sin children projection data
                             xScale yScale eased)
    projection data xScale yScale eased
  = renderMorphingDistricts OP sqrt atan2 cos sin children projection data
                            xScale yScale eased.
Proof.
  split; [|split].
  - unfold renderFullScatterDots.
    apply joinKeyed_twice; try reflexivity; try exact Hd; intros;
      apply marker_attrs_twice.
  - unfold renderMorphingDots.
    destruct (Math.leb t (dotFadeStart MT)); [reflexivity|].
    apply joinKeyed_twice; try reflexivity; try exact Hd; intros;
      apply marker_attrs_twice.
  - unfold renderMorphingDistricts.
    apply joinKeyed_twice; try reflexivity; try exact Hd; intros;
      apply path_attrs_twice.
Qed.

Lemma marker_render_idempotent_witness :
  let data := filterScatterData [Sample.d7; Sample.d9] Stunting in
  let once := renderFullScatterDots (7 # 10) [] data (createXScale 610)
                                    Sample.yScale in
  renderFullScatterDots (7 # 10) once data (createXScale 610) Sample.yScale
  = once.
Proof.
  intros data once.
  apply (marker_render_idempotent Sample.timing (7 # 10) Sample.zero1
           Sample.zero2 Sample.zero1 Sample.zero1 [] Sample.outside data
           (createXScale 610) Sample.yScale 1 1).
  repeat constructor; simpl; intros H;
    repeat (destruct H as [H|H]; [discriminate H|]); exact H.
Defined.

(** ** The scene at full scatter *)

Lemma overMainGroup_Forall (P : Element -> Prop) f s :
  (forall children, Forall P children -> Forall P (f children)) ->
  Forall P (sceneElements s) -> Forall P (sceneElements (overMainGroup f s)).
Proof.
  intros Hf. unfold sceneElements.
  induction s as [|n s IH]; intros H; [exact H|].
  cbn [flat_map] in H. apply Forall_app in H. destruct H as [H1 H2].
  destruct n as [e|tr children]; cbn [overMainGroup flat_map];
    apply Forall_app; split; auto.
Qed.

Lemma preserved_not_polygon c :
  existsb (Class_eqb c) preservedClasses = true -> isPolygonClass c = false.
Proof. destruct c; simpl; try discriminate; reflexivity. Qed.

Lemma clearPreserving_no_polygon s :
  Forall (fun e => isPolygonClass (el_class e) = false)
         (sceneElements (clearPreserving s)).
Proof.
  apply Forall_forall. intros e He.
  unfold sceneElements, clearPreserving in He.
  apply in_flat_map in He. destruct He as (n & Hn & He).
  apply in_flat_map in Hn. destruct Hn as (n0 & _ & Hn).
  destruct n0 as [e0|tr children].
  - destruct (existsb (Class_eqb (el_class e0)) preservedClasses) eqn:X;
      [|destruct Hn].
    destruct Hn as [<-|[]]. destruct He as [<-|[]].
    now apply preserved_not_polygon.
  - destruct Hn as [<-|[]]. unfold keepClasses in He.
    apply filter_In in He. apply preserved_not_polygon. tauto.
Qed.

Lemma getOrCreateMainGroup_Forall (P : Element -> Prop) margin s :
  Forall P (sceneElements s) ->
  Forall P (sceneElements (getOrCreateMainGroup margin s)).
Proof.
  intros H. unfold getOrCreateMainGroup. destruct (hasMainGroup s).
  - apply overMainGroup_Forall; [|exact H].
    intros children Hc. unfold removeClasses. apply Forall_forall.
    intros e He. apply filter_In in He. rewrite Forall_forall in Hc.
    apply Hc. tauto.
  - unfold sceneElements in *. rewrite flat_map_app. apply Forall_app.
    split; [exact H|]. simpl. constructor.
Qed.

Section FullScatterScene.

Variable MORPH_TIMING : MorphTiming.
Variable OPACITY_dot : Q.
Variable DEFAULT_MARGIN : Margin.
Variable Math_sqrt : Q -> Q.
Variable Math_atan2 : Q -> Q -> Q.
Variable Math_cos : Q -> Q.
Variable Math_sin : Q -> Q.
Variable createProjection :
  list MergedDistrictData -> Q -> Q -> Q -> Projection.
Variable createYScales :
  list ScatterDataPoint -> Q -> OutcomeType -> ScaleLinear.
Variable calculateFittedLines :
  list ScatterDataPoint -> OutcomeType -> bool * bool.

Lemma renderMorph_settled_no_polygon children projection xScale yScale merged
    data all ubigeos m o h isO isP :
  Math.geb m 1 = true ->
  Forall (fun e => isPolygonClass (el_class e) = false) children ->
  Forall (fun e => isPolygonClass (el_class e) = false)
    (renderMorph MORPH_TIMING OPACITY_dot Math_sqrt Math_atan2 Math_cos Math_sin
       children projection xScale yScale merged data all ubigeos m o h isO isP).
Proof.
  intros G H. unfold renderMorph, morphBranch.
  assert (L : Math.ltb m 1 = false).
  { apply MathFacts.ltb_ge. now apply MathFacts.geb_ge. }
  rewrite G, L. cbn [andb].
  destruct isO; [|destruct isP].
  - unfold renderOutcomeTransition.
    apply joinKeyed_Forall;
      [intros d; reflexivity|intros d e He; exact He
      |intros e e' He X; injection X as <-; exact He|exact H].
  - unfold renderFullScatterDots.
    apply joinKeyed_Forall;
      [intros d; reflexivity|intros d e He; exact He
      |intros e e' _ X; discriminate X|exact H].
  - unfold renderFullScatterDots.
    apply joinKeyed_Forall;
      [intros d; reflexivity|intros d e He; exact He
      |intros e e' _ X; discriminate X|exact H].
Qed.

(** X25. With [MORPH_TIMING.start < end <= 1], the scene of a frame at full
    scatter ([t >= 1]) holds no map polygon and no morphing or fading
    polygon, whatever the svg held before the frame. *)
Theorem full_scatter_scene_has_no_polygon (fr : Frame) (st : RenderState)
    (Hs : mt_start MORPH_TIMING < mt_end MORPH_TIMING)
    (He : mt_end MORPH_TIMING <= 1) (Ht : 1 <= currentProgress fr) :
  Forall (fun e => isPolygonClass (el_class e) = false)
    (sceneElements
       (svg (renderEffect MORPH_TIMING OPACITY_dot DEFAULT_MARGIN Math_sqrt
               Math_atan2 Math_cos Math_sin createProjection createYScales
               calculateFittedLines fr st))).
Proof.
  assert (G : Math.geb (currentProgress fr) 1 = true)
    by now apply MathFacts.geb_ge.
  assert (M : Math.ltb (currentProgress fr) (3 # 10) = false)
    by (apply MathFacts.ltb_ge; lra).
  assert (GM : Math.geb (morphT MORPH_TIMING (currentProgress fr)) 1 = true)
    by (apply (morphT_ge1 MORPH_TIMING Hs); lra).
  unfold renderEffect. cbn [svg]. rewrite G, M, orb_true_r.
  unfold renderFittedLines.
  repeat apply overMainGroup_Forall.
  - intros children H.
    repeat (apply joinIndexed_Forall; [reflexivity|intros d e X; exact X|]).
    exact H.
  - intros children H. now apply renderMorph_settled_no_polygon.
  - intros children H.
    unfold renderScatterAxes, renderScatterLabels, renderScatterBackgrounds.
    repeat (apply Forall_app; split); auto; repeat constructor.
  - apply getOrCreateMainGroup_Forall. apply clearPreserving_no_polygon.
Qed.

End FullScatterScene.

Lemma full_scatter_scene_has_no_polygon_witness :
  Forall (fun e => isPolygonClass (el_class e) = false)
    (sceneElements
       (svg (renderEffect Sample.timing (7 # 10) Sample.margin Sample.zero1
               Sample.zero2 Sample.zero1 Sample.zero1
               (fun _ _ _ _ => Sample.outside)
               (fun _ h _ => mkScale (0, 100) (h, 0) false)
               (fun _ _ => (true, true))
               (mkFrame 1 Stunting Dots 1 [Sample.d7; Sample.d9] 610 430)
               (mkRenderState Sample.scene (Some Stunting) (Some Dots))))).
Proof.
  apply (full_scatter_scene_has_no_polygon Sample.timing (7 # 10)
           Sample.margin Sample.zero1 Sample.zero2 Sample.zero1 Sample.zero1
           (fun _ _ _ _ => Sample.outside)
           (fun _ h _ => mkScale (0, 100) (h, 0) false)
           (fun _ _ => (true, true)));
    [reflexivity|discriminate|discriminate].
Defined.
